(** * The job queue of the GPU orchestrator: a shallow embedding

    This development embeds the queue manager
    ([src/services/queue-manager.js]) and the part of the persistence layer
    it uses ([db/database.js]) and states the properties of deduplication,
    admission, dispatch, retry, dead-lettering and cancellation over them.

    Conventions of the embedding:
    - a JavaScript value that [JSON.parse] can produce is a [JSON] term;
      object members are kept as an association list, the first binding of
      a key being the one property lookup sees, and no key is [__proto__]
      (the only name a lookup would find on [Object.prototype] as a value
      that [JSON.stringify] prints);
    - strings are byte strings (the UTF-8 text that [crypto] hashes), and
      are compared byte by byte where JavaScript compares code units;
    - a SQLite table is the list of its rows in rowid (insertion) order;
      ORDER BY is a stable sort of that list, and the statements about
      an ordered result do not depend on how rows of equal [created_at]
      are placed;
    - a JSON column holds the value whose text the code stores there; the
      [output] of a finished remote job is an object, an array or null,
      the values that [updateJob] stores as JSON text;
    - a parameter that is [undefined] is bound as NULL, as the driver does;
    - times are integers handed in by the caller of each operation;
    - dollar amounts are integers counting hundredths of a dollar;
    - the numbers of [getBackoffDelay] are the doubles of JavaScript, as
      the primitive floats of Rocq (IEEE 754 binary64, round to nearest
      even);
    - the remote backend, the clock, [uuidv4] and [Math.random] are
      inputs of the operations they influence. *)

From Stdlib Require Import ZArith QArith String Ascii List Floats.
From stdpp Require Import base tactics option list sorting strings pretty gmap.

Local Open Scope string_scope.
Local Open Scope list_scope.
Local Open Scope Z_scope.

(** ** SHA-256 (FIPS 180-4), as [crypto.createHash('sha256')] computes it *)

Module SHA256.

Definition w32 (x : Z) : Z := x mod 2 ^ 32.
Definition add32 (x y : Z) : Z := w32 (x + y).
Definition rotr (n x : Z) : Z :=
  Z.lor (Z.shiftr x n) (w32 (Z.shiftl x (32 - n))).
Definition not32 (x : Z) : Z := Z.lxor x 0xffffffff.

Definition Ch (x y z : Z) : Z := Z.lxor (Z.land x y) (Z.land (not32 x) z).
Definition Maj (x y z : Z) : Z :=
  Z.lxor (Z.lxor (Z.land x y) (Z.land x z)) (Z.land y z).
Definition bsig0 (x : Z) : Z := Z.lxor (Z.lxor (rotr 2 x) (rotr 13 x)) (rotr 22 x).
Definition bsig1 (x : Z) : Z := Z.lxor (Z.lxor (rotr 6 x) (rotr 11 x)) (rotr 25 x).
Definition ssig0 (x : Z) : Z := Z.lxor (Z.lxor (rotr 7 x) (rotr 18 x)) (Z.shiftr x 3).
Definition ssig1 (x : Z) : Z := Z.lxor (Z.lxor (rotr 17 x) (rotr 19 x)) (Z.shiftr x 10).

Definition round_constants : list Z :=
  0x428a2f98 :: 0x71374491 :: 0xb5c0fbcf :: 0xe9b5dba5 ::
  0x3956c25b :: 0x59f111f1 :: 0x923f82a4 :: 0xab1c5ed5 ::
  0xd807aa98 :: 0x12835b01 :: 0x243185be :: 0x550c7dc3 ::
  0x72be5d74 :: 0x80deb1fe :: 0x9bdc06a7 :: 0xc19bf174 ::
  0xe49b69c1 :: 0xefbe4786 :: 0x0fc19dc6 :: 0x240ca1cc ::
  0x2de92c6f :: 0x4a7484aa :: 0x5cb0a9dc :: 0x76f988da ::
  0x983e5152 :: 0xa831c66d :: 0xb00327c8 :: 0xbf597fc7 ::
  0xc6e00bf3 :: 0xd5a79147 :: 0x06ca6351 :: 0x14292967 ::
  0x27b70a85 :: 0x2e1b2138 :: 0x4d2c6dfc :: 0x53380d13 ::
  0x650a7354 :: 0x766a0abb :: 0x81c2c92e :: 0x92722c85 ::
  0xa2bfe8a1 :: 0xa81a664b :: 0xc24b8b70 :: 0xc76c51a3 ::
  0xd192e819 :: 0xd6990624 :: 0xf40e3585 :: 0x106aa070 ::
  0x19a4c116 :: 0x1e376c08 :: 0x2748774c :: 0x34b0bcb5 ::
  0x391c0cb3 :: 0x4ed8aa4a :: 0x5b9cca4f :: 0x682e6ff3 ::
  0x748f82ee :: 0x78a5636f :: 0x84c87814 :: 0x8cc70208 ::
  0x90befffa :: 0xa4506ceb :: 0xbef9a3f7 :: 0xc67178f2 :: nil.

(** The eight working variables, and the chaining value. *)
Record regs := Regs { ra : Z; rb : Z; rc : Z; rd : Z; re : Z; rf : Z; rg : Z; rh : Z }.

Definition initial_hash : regs :=
  Regs 0x6a09e667 0xbb67ae85 0x3c6ef372 0xa54ff53a
       0x510e527f 0x9b05688c 0x1f83d9ab 0x5be0cd19.

Definition round (k w : Z) (s : regs) : regs :=
  let t1 := add32 (add32 (add32 (add32 (rh s) (bsig1 (re s))) (Ch (re s) (rf s) (rg s))) k) w in
  let t2 := add32 (bsig0 (ra s)) (Maj (ra s) (rb s) (rc s)) in
  Regs (add32 t1 t2) (ra s) (rb s) (rc s) (add32 (rd s) t1) (re s) (rf s) (rg s).

(** [win] is the window W_t .. W_(t+15) of the message schedule. *)
Fixpoint rounds (ks : list Z) (win : list Z) (s : regs) : regs :=
  match ks, win with
  | k :: ks', w0 :: rest =>
      let w16 := add32 (add32 (ssig1 (nth 14 win 0)) (nth 9 win 0))
                       (add32 (ssig0 (nth 1 win 0)) w0) in
      rounds ks' (rest ++ [w16]) (round k w0 s)
  | _, _ => s
  end.

Definition compress (h : regs) (block : list Z) : regs :=
  let s := rounds round_constants block h in
  Regs (add32 (ra h) (ra s)) (add32 (rb h) (rb s)) (add32 (rc h) (rc s))
       (add32 (rd h) (rd s)) (add32 (re h) (re s)) (add32 (rf h) (rf s))
       (add32 (rg h) (rg s)) (add32 (rh h) (rh s)).

Definition be_bytes (n : nat) (x : Z) : list Z :=
  map (fun i => Z.shiftr x (8 * Z.of_nat (n - 1 - i)) mod 256) (seq 0 n).

Definition pad (msg : list Z) : list Z :=
  let len := Z.of_nat (length msg) in
  let zeros := Z.to_nat ((55 - len) mod 64) in
  msg ++ [0x80] ++ repeat 0 zeros ++ be_bytes 8 (8 * len).

Fixpoint words (fuel : nat) (bs : list Z) : list Z :=
  match fuel, bs with
  | S fuel', b0 :: b1 :: b2 :: b3 :: bs' =>
      (Z.shiftl b0 24 + Z.shiftl b1 16 + Z.shiftl b2 8 + b3) :: words fuel' bs'
  | _, _ => []
  end.

Fixpoint blocks (fuel : nat) (h : regs) (ws : list Z) : regs :=
  match fuel, ws with
  | S fuel', _ :: _ => blocks fuel' (compress h (take 16 ws)) (drop 16 ws)
  | _, _ => h
  end.

Definition digest (msg : list Z) : regs :=
  let ws := words (length (pad msg)) (pad msg) in
  blocks (length ws) initial_hash ws.

Definition hex_digit (x : Z) : ascii :=
  ascii_of_nat (Z.to_nat (if x <? 10 then 48 + x else 87 + x)).

Definition hex_word (x : Z) : list ascii :=
  map (fun i => hex_digit (Z.shiftr x (4 * Z.of_nat (7 - i)) mod 16)) (seq 0 8).

Definition hex (s : regs) : string :=
  string_of_list_ascii
    (hex_word (ra s) ++ hex_word (rb s) ++ hex_word (rc s) ++ hex_word (rd s) ++
     hex_word (re s) ++ hex_word (rf s) ++ hex_word (rg s) ++ hex_word (rh s)).

Definition bytes_of (s : string) : list Z :=
  map (fun c => Z.of_nat (nat_of_ascii c)) (list_ascii_of_string s).

(** [crypto.createHash('sha256').update(s).digest('hex')] *)
Definition sha256_hex (s : string) : string := hex (digest (bytes_of s)).

End SHA256.

(** ** JSON values and [JSON.stringify] with an array replacer *)

(** Numbers are modelled in their integer case, printed in decimal. *)
#[local] Unset Elimination Schemes.
Inductive JSON : Type :=
  | JNull
  | JBool (b : bool)
  | JNum (n : Z)
  | JStr (s : string)
  | JArr (items : list JSON)
  | JObj (props : list (string * JSON)).
#[local] Set Elimination Schemes.

(** [o[key]] on the members of an object: [None] is [undefined]. *)
Fixpoint assoc {A : Type} (key : string) (props : list (string * A)) : option A :=
  match props with
  | [] => None
  | (k, v) :: rest => if String.eqb k key then Some v else assoc key rest
  end.

Definition get_prop (key : string) (v : JSON) : option JSON :=
  match v with
  | JObj props => assoc key props
  | _ => None
  end.

Definition dquote : ascii := "034"%char.

Definition hex4 (n : Z) : string :=
  string_of_list_ascii
    [SHA256.hex_digit (Z.shiftr n 12 mod 16); SHA256.hex_digit (Z.shiftr n 8 mod 16);
     SHA256.hex_digit (Z.shiftr n 4 mod 16); SHA256.hex_digit (n mod 16)].

(** One code unit of QuoteJSONString (ECMA-262, 25.5.2.3). *)
Definition quote_char (c : ascii) : string :=
  let n := Z.of_nat (nat_of_ascii c) in
  if n =? 8 then "\b"
  else if n =? 9 then "\t"
  else if n =? 10 then "\n"
  else if n =? 12 then "\f"
  else if n =? 13 then "\r"
  else if n =? 34 then String "\" (String dquote EmptyString)
  else if n =? 92 then "\\"
  else if n <? 32 then "\u" +:+ hex4 n
  else String c EmptyString.

Fixpoint quote_chars (s : string) : string :=
  match s with
  | EmptyString => EmptyString
  | String c rest => quote_char c +:+ quote_chars rest
  end.

Definition QuoteJSONString (s : string) : string :=
  String dquote (quote_chars s +:+ String dquote EmptyString).

Fixpoint join (sep : string) (parts : list string) : string :=
  match parts with
  | [] => EmptyString
  | [p] => p
  | p :: rest => p +:+ sep +:+ join sep rest
  end.

(** SerializeJSONProperty with a PropertyList [K] and no gap: an object
    emits, for each key of [K] in turn, the member it has under that key;
    an array emits all its elements.  The members are serialized first and
    then looked up, which is the same as looking up and then serializing. *)
Fixpoint SerializeJSONProperty (K : list string) (v : JSON) : string :=
  match v with
  | JNull => "null"
  | JBool true => "true"
  | JBool false => "false"
  | JNum n => pretty n
  | JStr s => QuoteJSONString s
  | JArr items => "[" +:+ join "," (map (SerializeJSONProperty K) items) +:+ "]"
  | JObj props =>
      let ser := map (fun p => (fst p, SerializeJSONProperty K (snd p))) props in
      "{" +:+ join ","
        (omap (fun P => (fun str => QuoteJSONString P +:+ ":" +:+ str) <$> assoc P ser) K)
      +:+ "}"
  end.

(** The PropertyList of an array replacer: its elements, repeats dropped. *)
Fixpoint property_list (seen : list string) (replacer : list string) : list string :=
  match replacer with
  | [] => []
  | k :: rest =>
      if bool_decide (k ∈ seen) then property_list seen rest
      else k :: property_list (k :: seen) rest
  end.

(** [JSON.stringify(value, replacer)] for an array [replacer] of strings. *)
Definition JSON_stringify (value : JSON) (replacer : list string) : string :=
  SerializeJSONProperty (property_list [] replacer) value.

(** [Object.keys(v)]: [None] is the TypeError raised for [null]. *)
Definition Object_keys (v : JSON) : option (list string) :=
  match v with
  | JNull => None
  | JObj props => Some (map fst props)
  | JArr items => Some (map pretty (seq 0 (length items)))
  | JStr s => Some (map pretty (seq 0 (String.length s)))
  | JBool _ | JNum _ => Some []
  end.

(** [Array.prototype.sort()] without comparator: ascending code units. *)
Fixpoint sort_insert (k : string) (sorted : list string) : list string :=
  match sorted with
  | [] => [k]
  | x :: rest => if String.leb k x then k :: sorted else x :: sort_insert k rest
  end.

Definition Array_sort (l : list string) : list string := foldr sort_insert [] l.

(** The input without the members of objects, at any depth, whose key
    is not in [keys]. *)
Fixpoint prune (keys : list string) (v : JSON) : JSON :=
  match v with
  | JArr items => JArr (map (prune keys) items)
  | JObj props =>
      JObj (filter (fun p => fst p ∈ keys)
              (map (fun p => (fst p, prune keys (snd p))) props))
  | _ => v
  end.

(** The keys that [hashInput] passes as replacer. *)
Definition top_keys (input : JSON) : list string := default [] (Object_keys input).

(** ** Errors thrown by the operations *)

Inductive JsError : Type :=
  | Error (message : string)
  | TypeError (message : string)
  | SqliteError (message : string).

(** ** [hashInput] (queue-manager.js, lines 46-49) *)

Definition hashInput (input : JSON) : JsError + string :=
  match Object_keys input with
  | None => inl (TypeError "Cannot convert undefined or null to object")
  | Some keys =>
      let normalized := JSON_stringify input (Array_sort keys) in
      inr (String.substring 0 16 (SHA256.sha256_hex normalized))
  end.

(** ** The persistence layer (db/database.js) *)

Inductive Status : Type :=
  PENDING | RUNNING | IN_QUEUE | COMPLETED | FAILED | CANCELLED.

#[global] Instance Status_eq_dec : EqDecision Status.
Proof. solve_decision. Defined.

(** A row of table [jobs]; the fields are the columns of the schema.
    [created_at] is CURRENT_TIMESTAMP, which counts whole seconds. *)
Module Job.
Record row := Row {
  id : string;
  runpod_job_id : option string;
  endpoint_id : option string;
  status : Status;
  input_hash : string;
  input : JSON;
  output : option JSON;
  gpu_used : option string;
  duration_ms : option Z;
  cost_usd : option Z;
  attempts : Z;
  error : option string;
  created_at : Z;
  started_at : option Z;
  completed_at : option Z }.
End Job.

(** A row of table [dead_letter_queue]. *)
Module Dlq.
Record row := Row {
  id : string;
  original_job_id : option string;
  endpoint_id : option string;
  job_data : JSON;
  error : string;
  attempts : option Z;
  created_at : Z }.
End Dlq.

(** A row of table [cost_log], as far as [getTodaySpend] reads it. *)
Module CostLog.
Record row := Row { cost_usd : Z; logged_at : Z }.
End CostLog.

Record Database := Db {
  jobs : list Job.row;
  dead_letter_queue : list Dlq.row;
  cost_log : list CostLog.row }.

Definition with_jobs (js : list Job.row) (db : Database) : Database :=
  Db js (dead_letter_queue db) (cost_log db).

(** The clock is [Date.now()], in milliseconds. *)
Definition seconds (now : Z) : Z := now / 1000.
Definition DATE (now : Z) : Z := now / 86400000.

Definition status_name (s : Status) : string :=
  match s with
  | PENDING => "PENDING" | RUNNING => "RUNNING" | IN_QUEUE => "IN_QUEUE"
  | COMPLETED => "COMPLETED" | FAILED => "FAILED" | CANCELLED => "CANCELLED"
  end.

Definition nullable {A : Type} (f : A -> JSON) (o : option A) : JSON :=
  match o with Some a => f a | None => JNull end.

(** The object the driver builds for a row of [SELECT * FROM jobs], its
    keys being the column names, with [input] parsed as [getPendingJobs]
    does. *)
Definition row_object (r : Job.row) : JSON :=
  JObj [ ("id", JStr (Job.id r));
         ("runpod_job_id", nullable JStr (Job.runpod_job_id r));
         ("endpoint_id", nullable JStr (Job.endpoint_id r));
         ("status", JStr (status_name (Job.status r)));
         ("input_hash", JStr (Job.input_hash r));
         ("input", Job.input r);
         ("output", nullable (fun v => v) (Job.output r));
         ("gpu_used", nullable JStr (Job.gpu_used r));
         ("duration_ms", nullable JNum (Job.duration_ms r));
         ("cost_usd", nullable JNum (Job.cost_usd r));
         ("attempts", JNum (Job.attempts r));
         ("error", nullable JStr (Job.error r));
         ("created_at", JNum (Job.created_at r));
         ("started_at", nullable JNum (Job.started_at r));
         ("completed_at", nullable JNum (Job.completed_at r)) ].

(** A JavaScript value bound to a TEXT or INTEGER parameter; [undefined]
    and [null] are bound as NULL. *)
Definition as_text (v : option JSON) : option string :=
  match v with Some (JStr s) => Some s | _ => None end.
Definition as_integer (v : option JSON) : option Z :=
  match v with Some (JNum n) => Some n | _ => None end.

(** The job object that [submitJob] hands to [createJob]. *)
Record NewJob := {
  nj_id : string;
  nj_endpointId : option JSON;
  nj_inputHash : string;
  nj_input : JSON;
  nj_status : Status;
  nj_attempts : Z;
  nj_createdAt : Z }.

Definition has_id (i : string) (r : Job.row) : bool := String.eqb (Job.id r) i.

(** [createJob]: the INSERT names four columns, the others take their
    defaults; the PRIMARY KEY rejects an id already present. *)
Definition createJob (now : Z) (job : NewJob) (db : Database) : JsError + Database :=
  if existsb (has_id (nj_id job)) (jobs db)
  then inl (SqliteError "UNIQUE constraint failed: jobs.id")
  else inr (with_jobs
    (jobs db ++
      [Job.Row (nj_id job) None (as_text (nj_endpointId job)) PENDING (nj_inputHash job)
               (nj_input job) None None None None 0 None (seconds now) None None])
    db).

(** The keys of an [updates] object handed to [updateJob]. *)
Inductive Assign : Type :=
  | set_status (s : Status)
  | set_started_at (t : Z)
  | set_completed_at (t : Z)
  | set_attempts (n : Z)
  | set_runpod_job_id (r : string)
  | set_error (e : string)
  | set_output (o : JSON)
  | set_duration_ms (d : Z).

Definition assign (r : Job.row) (a : Assign) : Job.row :=
  let '(Job.Row i rp ep st ih inp out gpu dur cost att err cre sta com) := r in
  match a with
  | set_status s => Job.Row i rp ep s ih inp out gpu dur cost att err cre sta com
  | set_started_at t => Job.Row i rp ep st ih inp out gpu dur cost att err cre (Some t) com
  | set_completed_at t => Job.Row i rp ep st ih inp out gpu dur cost att err cre sta (Some t)
  | set_attempts n => Job.Row i rp ep st ih inp out gpu dur cost n err cre sta com
  | set_runpod_job_id x => Job.Row i (Some x) ep st ih inp out gpu dur cost att err cre sta com
  | set_error e => Job.Row i rp ep st ih inp out gpu dur cost att (Some e) cre sta com
  | set_output o => Job.Row i rp ep st ih inp (Some o) gpu dur cost att err cre sta com
  | set_duration_ms d => Job.Row i rp ep st ih inp out gpu (Some d) cost att err cre sta com
  end.

(** [updateJob]: UPDATE jobs SET ... WHERE id = ? *)
Definition update_row (i : string) (updates : list Assign) (r : Job.row) : Job.row :=
  if has_id i r then foldl assign r updates else r.

Definition updateJob (i : string) (updates : list Assign) (db : Database) : Database :=
  with_jobs (map (update_row i updates) (jobs db)) db.

(** The status and the backend handle of a row after [updates]. *)
Definition status_after (updates : list Assign) (s : Status) : Status :=
  foldl (fun s a => match a with set_status s' => s' | _ => s end) s updates.

Definition handle_after (updates : list Assign) (h : option string) : option string :=
  foldl (fun h a => match a with set_runpod_job_id r => Some r | _ => h end) h updates.

(** [getJob]: SELECT * FROM jobs WHERE id = ? *)
Definition getJob (i : string) (db : Database) : option Job.row :=
  List.find (has_id i) (jobs db).

(** ORDER BY with a stable sort; [le a b] says that [a] may precede [b]. *)
Fixpoint insert_by {A : Type} (le : A -> A -> bool) (x : A) (l : list A) : list A :=
  match l with
  | [] => [x]
  | y :: rest => if le x y then x :: l else y :: insert_by le x rest
  end.

Definition order_by {A : Type} (le : A -> A -> bool) (l : list A) : list A :=
  foldr (insert_by le) [] l.

(** LIMIT: a negative bound is no bound in SQLite. *)
Definition sql_limit {A : Type} (n : Z) (l : list A) : list A :=
  if n <? 0 then l else take (Z.to_nat n) l.

Definition dedup_status (s : Status) : bool :=
  match s with
  | COMPLETED | RUNNING | PENDING | IN_QUEUE => true
  | FAILED | CANCELLED => false
  end.

Definition hash_match (h : string) (r : Job.row) : bool :=
  String.eqb (Job.input_hash r) h && dedup_status (Job.status r).

Definition created_asc (a b : Job.row) : bool := Job.created_at a <=? Job.created_at b.
Definition created_desc (a b : Job.row) : bool := Job.created_at b <=? Job.created_at a.

(** [getJobByHash]: ... WHERE input_hash = ? AND status IN (...)
    ORDER BY created_at DESC LIMIT 1 *)
Definition getJobByHash (inputHash : string) (db : Database) : option Job.row :=
  head (sql_limit 1 (order_by created_desc (filter (fun r => hash_match inputHash r) (jobs db)))).

Definition is_pending (r : Job.row) : bool :=
  bool_decide (Job.status r = PENDING).

(** [getPendingJobs]: ... WHERE status = 'PENDING' ORDER BY created_at ASC LIMIT ? *)
Definition getPendingJobs (limit : Z) (db : Database) : list Job.row :=
  sql_limit limit (order_by created_asc (filter (fun r => is_pending r) (jobs db))).

(** [addToDeadLetter]: the id is [dlq_] followed by the clock, and is the
    PRIMARY KEY of the table. *)
Definition addToDeadLetter (now : Z) (job : JSON) (error : string) (db : Database)
  : JsError + Database :=
  let i := "dlq_" +:+ pretty now in
  if existsb (fun d => String.eqb (Dlq.id d) i) (dead_letter_queue db)
  then inl (SqliteError "UNIQUE constraint failed: dead_letter_queue.id")
  else inr (Db (jobs db)
               (dead_letter_queue db ++
                 [Dlq.Row i (as_text (get_prop "id" job)) (as_text (get_prop "endpointId" job))
                          job error (as_integer (get_prop "attempts" job)) (seconds now)])
               (cost_log db)).

Definition dlq_desc (a b : Dlq.row) : bool := Dlq.created_at b <=? Dlq.created_at a.

(** [getDeadLetterJobs]: SELECT * FROM dead_letter_queue ORDER BY created_at DESC *)
Definition getDeadLetterJobs (db : Database) : list Dlq.row :=
  order_by dlq_desc (dead_letter_queue db).

(** [getTodaySpend]: the sum of [cost_usd] over the entries logged today. *)
Definition getTodaySpend (now : Z) (db : Database) : Z :=
  foldr Z.add 0
    (map CostLog.cost_usd
       (filter (fun c => bool_decide (DATE (CostLog.logged_at c) = DATE now)) (cost_log db))).

(** ** The queue manager (services/queue-manager.js) *)

(** [config] (config/env.js), as far as the queue reads it. *)
Record Config := {
  budgetLimitDaily : Z;
  maxConcurrentJobs : Z;
  rateLimitPerSecond : Z;
  maxRetryAttempts : Z }.

(** The [options] of [submitJob]; [None] is an absent key. *)
Record Options := { skipDeduplication : option bool }.

Definition no_options : Options := {| skipDeduplication := None |}.

(** An entry of the [activeJobs] map. *)
Record ActiveInfo := {
  runpodJobId : string;
  endpointId : option string;
  startTime : Z }.

(** The calls of [broadcast], by event name. *)
Inductive Event : Type :=
  | job_created (id : string) (status : Status)
  | job_running (id : string)
  | job_queued (id : string) (runpodJobId : string)
  | job_failed (id : string) (error : option string) (deadLettered : bool)
  | job_retry (id : string) (attempt : Z) (retryIn : float)
  | job_completed (id : string) (output : JSON) (duration : Z)
  | job_cancelled (id : string).

(** The fields of the [QueueManager] object, the log of its broadcasts
    and the database it writes to. *)
Record State := {
  isProcessing : bool;
  activeJobs : gmap string ActiveInfo;
  rateLimitTokens : Z;
  sent : list Event;
  database : Database }.

Definition with_db (f : Database -> Database) (st : State) : State :=
  {| isProcessing := isProcessing st; activeJobs := activeJobs st;
     rateLimitTokens := rateLimitTokens st; sent := sent st;
     database := f (database st) |}.

Definition with_active (f : gmap string ActiveInfo -> gmap string ActiveInfo)
    (st : State) : State :=
  {| isProcessing := isProcessing st; activeJobs := f (activeJobs st);
     rateLimitTokens := rateLimitTokens st; sent := sent st;
     database := database st |}.

Definition with_tokens (n : Z) (st : State) : State :=
  {| isProcessing := isProcessing st; activeJobs := activeJobs st;
     rateLimitTokens := n; sent := sent st; database := database st |}.

Definition with_processing (b : bool) (st : State) : State :=
  {| isProcessing := b; activeJobs := activeJobs st;
     rateLimitTokens := rateLimitTokens st; sent := sent st;
     database := database st |}.

Definition broadcast (e : Event) (st : State) : State :=
  {| isProcessing := isProcessing st; activeJobs := activeJobs st;
     rateLimitTokens := rateLimitTokens st; sent := sent st ++ [e];
     database := database st |}.

(** What [submitJob] resolves to. *)
Inductive SubmitResult : Type :=
  | Deduplicated (existing : Job.row)
      (* {...existing, deduplicated: true, message: 'Job with identical input already exists'} *)
  | Queued (id : string) (status : Status).
      (* {id, status: 'PENDING', message: 'Job queued successfully'} *)

(** How [cancelJob] settles. *)
Inductive CancelResult : Type :=
  | CancelNotFound                      (* throw new Error('Job not found') *)
  | CancelRejected (message : string)   (* the rejection of serverlessClient.cancelJob *)
  | Cancelled.                          (* { success: true } *)

(** What the remote backend answers to [runJob] and to [getJobStatus]. *)
Inductive RunResult : Type :=
  | RunOk (id : string)
  | RunThrows (message : string).

Inductive RemoteStatus : Type :=
  | RemoteCompleted (output : JSON)
  | RemoteFailed (error : option string)
  | RemoteInProgress
  | RemoteThrows (message : string).

(** A dollar amount as [${x}] prints it, and as [x.toFixed(2)] does. *)
Definition two_digits (n : Z) : string := pretty (n / 10) +:+ pretty (n mod 10).

Definition usd_toString (cents : Z) : string :=
  let a := Z.abs cents in
  (if cents <? 0 then "-" else EmptyString) +:+ pretty (a / 100) +:+
  (if a mod 100 =? 0 then EmptyString
   else if a mod 10 =? 0 then "." +:+ pretty (a mod 100 / 10)
   else "." +:+ two_digits (a mod 100)).

Definition usd_toFixed2 (cents : Z) : string :=
  let a := Z.abs cents in
  (if cents <? 0 then "-" else EmptyString) +:+ pretty (a / 100) +:+ "." +:+
  two_digits (a mod 100).

Definition budget_message (limit todaySpend : Z) : string :=
  "Daily budget limit ($" +:+ usd_toString limit +:+ ") exceeded. Current spend: $" +:+
  usd_toFixed2 todaySpend.

(** [status.error || 'Job failed'] *)
Definition error_or_default (e : option string) : string :=
  match e with
  | Some m => if String.eqb m EmptyString then "Job failed" else m
  | None => "Job failed"
  end.

(** The truth value of a nullable TEXT column. *)
Definition truthy (o : option string) : bool :=
  match o with
  | Some m => negb (String.eqb m EmptyString)
  | None => false
  end.

(** [Math.pow(2, n)] for an integer [n]: the power of two, exact where it
    is a double, infinite or zero beyond. *)
Definition Math_pow2 (n : Z) : float := FloatOps.Z.ldexp 1%float n.

(** [Math.min(x, y)] *)
Definition Math_min (x y : float) : float :=
  if PrimFloat.is_nan x then x
  else if PrimFloat.is_nan y then y
  else if PrimFloat.ltb x y then x
  else if PrimFloat.ltb y x then y
  else if PrimFloat.get_sign x then x else y.

(** [getBackoffDelay]; [rnd] is the value of [Math.random()]. *)
Definition getBackoffDelay (attempts : Z) (rnd : float) : float :=
  let baseDelay := 1000%float in
  let maxDelay := 32000%float in
  let delay := Math_min (baseDelay * Math_pow2 attempts) maxDelay in
  (delay + rnd * 1000)%float.


(** The greatest double below 1, a value that [Math.random()] can take. *)
Definition below_one : float := 0x1.fffffffffffffp-1%float.

Section QueueManager.

Variable config : Config.

(** The constructor, over a database. *)
Definition new_QueueManager (db : Database) : State :=
  {| isProcessing := false; activeJobs := ∅;
     rateLimitTokens := rateLimitPerSecond config; sent := []; database := db |}.

(** [submitJob] (lines 54-97); [uuid] is the value of [uuidv4()]. *)
Definition submitJob (uuid : string) (now : Z) (endpointId : option JSON) (input : JSON)
    (options : Options) (st : State) : (JsError + SubmitResult) * State :=
  let skip := default false (skipDeduplication options) in
  match hashInput input with
  | inl e => (inl e, st)
  | inr inputHash =>
      match (if negb skip then getJobByHash inputHash (database st) else None) with
      | Some existing => (inr (Deduplicated existing), st)
      | None =>
          let todaySpend := getTodaySpend now (database st) in
          if budgetLimitDaily config <=? todaySpend
          then (inl (Error (budget_message (budgetLimitDaily config) todaySpend)), st)
          else
            let job := {| nj_id := uuid; nj_endpointId := endpointId;
                          nj_inputHash := inputHash; nj_input := input;
                          nj_status := PENDING; nj_attempts := 0;
                          nj_createdAt := now |} in
            match createJob now job (database st) with
            | inl e => (inl e, st)
            | inr db' =>
                (inr (Queued uuid PENDING),
                 broadcast (job_created uuid PENDING) (with_db (fun _ => db') st))
            end
      end
  end.

(** [acquireRateLimitToken] (lines 102-108), one turn of it: [None]
    when the loop has to sleep and test again. *)
Definition acquireRateLimitToken (st : State) : option State :=
  if rateLimitTokens st <? 1 then None
  else Some (with_tokens (rateLimitTokens st - 1) st).

(** The callback of [startTokenRefillLoop] (lines 113-120). *)
Definition refill (st : State) : State :=
  with_tokens
    (Z.min (rateLimitPerSecond config) (rateLimitTokens st + rateLimitPerSecond config))
    st.

(** [processJob] (lines 136-195) up to its first suspension. *)
Definition processJob_begin (now : Z) (job : Job.row) (st : State) : State :=
  broadcast (job_running (Job.id job))
    (with_db (updateJob (Job.id job)
                [set_status RUNNING; set_started_at now; set_attempts (Job.attempts job + 1)])
             st).

(** [processJob] after [runJob] has resolved to [result]. *)
Definition processJob_queued (startTime : Z) (job : Job.row) (result_id : string)
    (st : State) : State :=
  let st1 := with_db (updateJob (Job.id job)
                        [set_runpod_job_id result_id; set_status IN_QUEUE]) st in
  let st2 := broadcast (job_queued (Job.id job) result_id) st1 in
  with_active
    (insert (Job.id job)
       {| runpodJobId := result_id; endpointId := Job.endpoint_id job;
          startTime := startTime |})
    st2.

(** The [catch] block of [processJob] (lines 170-194).  When the INSERT
    of [addToDeadLetter] throws, the broadcast after it is not reached. *)
Definition processJob_catch (now : Z) (rnd : float) (job : Job.row) (message : string)
    (st : State) : State :=
  let attempts := Job.attempts job + 1 in
  if maxRetryAttempts config <=? attempts then
    let st1 := with_db (updateJob (Job.id job)
                          [set_status FAILED; set_error message; set_attempts attempts]) st in
    match addToDeadLetter now (row_object job) message (database st1) with
    | inl _ => st1
    | inr db' =>
        broadcast (job_failed (Job.id job) (Some message) true)
          (with_db (fun _ => db') st1)
    end
  else
    let delay := getBackoffDelay attempts rnd in
    let st1 := with_db (updateJob (Job.id job)
                          [set_status PENDING; set_error message; set_attempts attempts]) st in
    broadcast (job_retry (Job.id job) attempts delay) st1.

(** The body of the loop of [pollActiveJobs] (lines 200-231) once
    [getJobStatus] has answered. *)
Definition pollActiveJobs_body (now : Z) (jobId : string) (info : ActiveInfo)
    (status : RemoteStatus) (st : State) : State :=
  match status with
  | RemoteCompleted output =>
      let duration := now - startTime info in
      let st1 := with_db (updateJob jobId
                            [set_status COMPLETED; set_output output;
                             set_duration_ms duration; set_completed_at now]) st in
      let st2 := with_active (delete jobId) st1 in
      broadcast (job_completed jobId output duration) st2
  | RemoteFailed error =>
      let st1 := with_db (updateJob jobId
                            [set_status FAILED; set_error (error_or_default error);
                             set_completed_at now]) st in
      let st2 := with_active (delete jobId) st1 in
      broadcast (job_failed jobId error false) st2
  | RemoteInProgress => st
  | RemoteThrows _ => st
  end.

(** The jobs a tick of the processing loop fetches (line 245). *)
Definition tick_fetch (st : State) : list Job.row :=
  getPendingJobs (maxConcurrentJobs config - Z.of_nat (size (activeJobs st))) (database st).

(** [cancelJob] (lines 283-296). *)
Definition needs_remote_cancel (job : Job.row) (st : State) : bool :=
  truthy (Job.runpod_job_id job) && bool_decide (is_Some (activeJobs st !! Job.id job)).

Definition cancel_finish (jobId : string) (st : State) : State :=
  broadcast (job_cancelled jobId)
    (with_db (updateJob jobId [set_status CANCELLED]) st).

(** [remote] is the outcome of [serverlessClient.cancelJob], consulted
    only when the call is made: [None] when it resolves, the message of
    the error when it rejects. *)
Definition cancelJob (remote : option string) (jobId : string) (st : State)
    : CancelResult * State :=
  match getJob jobId (database st) with
  | None => (CancelNotFound, st)
  | Some job =>
      if needs_remote_cancel job st then
        match remote with
        | Some message => (CancelRejected message, st)
        | None => (Cancelled, cancel_finish jobId (with_active (delete jobId) st))
        end
      else (Cancelled, cancel_finish jobId st)
  end.

(** [retryDeadLetter] (lines 301-309). *)
Definition retryDeadLetter (uuid : string) (now : Z) (dlqId : string) (st : State)
    : (JsError + SubmitResult) * State :=
  let dlqJobs := getDeadLetterJobs (database st) in
  match List.find (fun j => String.eqb (Dlq.id j) dlqId) dlqJobs with
  | None => (inl (Error "Dead letter job not found"), st)
  | Some dlqJob =>
      let jobData := Dlq.job_data dlqJob in
      match jobData, get_prop "input" jobData with
      | JNull, _ => (inl (TypeError "Cannot read properties of null"), st)
      | _, None => (inl (TypeError "Cannot convert undefined or null to object"), st)
      | _, Some input =>
          submitJob uuid now (get_prop "endpointId" jobData) input
            {| skipDeduplication := Some true |} st
      end
  end.

End QueueManager.

(** ** The event loop

    The operations above run to completion between two suspensions.  A
    [System] adds to the [State] what is suspended: the [processJob] calls
    of the running tick, the position of [pollActiveJobs], and the
    [cancelJob] calls that wait for the backend.  A [Label] is one turn of
    the event loop, with what the environment contributes to it; the last
    one is the process starting anew over the database it left behind. *)

Record Task := {
  task_job : Job.row;     (* the row as [getPendingJobs] returned it *)
  task_start : Z;         (* [startTime] *)
  task_token : bool }.    (* [acquireRateLimitToken] has returned *)

Inductive Loop : Type :=
  | Idle
  | Dispatching (tasks : list Task)
  | Polling (cur : option (string * ActiveInfo)) (rest : list string).

Record System := {
  qm : State;
  loop : Loop;
  cancelling : list string }.

Definition with_qm (st : State) (s : System) : System :=
  {| qm := st; loop := loop s; cancelling := cancelling s |}.

Definition with_loop (l : Loop) (s : System) : System :=
  {| qm := qm s; loop := l; cancelling := cancelling s |}.

Inductive Label : Type :=
  | call_submitJob (uuid : string) (now : Z) (endpointId : option JSON) (input : JSON)
      (options : Options)
  | call_retryDeadLetter (uuid : string) (now : Z) (dlqId : string)
  | call_cancelJob (jobId : string)
  | remote_cancel_settled (jobId : string) (outcome : option string)
  | timer_tick (now : Z)
  | all_settled
  | tick_done
  | timer_refill
  | token_wakeup (k : nat)
  | runJob_settled (k : nat) (now : Z) (rnd : float) (result : RunResult)
  | poll_next (jobId : string)
  | getJobStatus_settled (now : Z) (status : RemoteStatus)
  | cost_logged (entry : CostLog.row)
  | process_restart.

Fixpoint remove_first (x : string) (l : list string) : list string :=
  match l with
  | [] => []
  | y :: rest => if String.eqb y x then rest else y :: remove_first x rest
  end.

Section EventLoop.

Variable config : Config.

(** [pendingJobs.map(job => this.processJob(job))]: each call runs up
    to its first suspension, and takes a token if one is left. *)
Fixpoint start_jobs (now : Z) (pending : list Job.row) (st : State) : State * list Task :=
  match pending with
  | [] => (st, [])
  | job :: rest =>
      let st1 := processJob_begin now job st in
      let '(st2, token) :=
        match acquireRateLimitToken st1 with
        | Some st' => (st', true)
        | None => (st1, false)
        end in
      let '(st3, tasks) := start_jobs now rest st2 in
      (st3, {| task_job := job; task_start := now; task_token := token |} :: tasks)
  end.

Definition step (l : Label) (s : System) : option System :=
  match l with
  | call_submitJob uuid now endpointId input options =>
      Some (with_qm (snd (submitJob config uuid now endpointId input options (qm s))) s)
  | call_retryDeadLetter uuid now dlqId =>
      Some (with_qm (snd (retryDeadLetter config uuid now dlqId (qm s))) s)
  | call_cancelJob jobId =>
      match getJob jobId (database (qm s)) with
      | None => Some s
      | Some job =>
          if needs_remote_cancel job (qm s)
          then Some {| qm := qm s; loop := loop s; cancelling := jobId :: cancelling s |}
          else Some (with_qm (cancel_finish jobId (qm s)) s)
      end
  | remote_cancel_settled jobId outcome =>
      if bool_decide (jobId ∈ cancelling s) then
        let st' := match outcome with
                   | Some _ => qm s
                   | None => cancel_finish jobId (with_active (delete jobId) (qm s))
                   end in
        Some {| qm := st'; loop := loop s;
                cancelling := remove_first jobId (cancelling s) |}
      else None
  | timer_tick now =>
      if isProcessing (qm s) then Some s
      else
        let st := with_processing true (qm s) in
        let '(st', tasks) := start_jobs now (tick_fetch config st) st in
        Some {| qm := st'; loop := Dispatching tasks; cancelling := cancelling s |}
  | all_settled =>
      match loop s with
      | Dispatching [] =>
          Some (with_loop (Polling None (map fst (map_to_list (activeJobs (qm s))))) s)
      | _ => None
      end
  | tick_done =>
      match loop s with
      | Polling None [] =>
          Some {| qm := with_processing false (qm s); loop := Idle;
                  cancelling := cancelling s |}
      | _ => None
      end
  | timer_refill => Some (with_qm (refill config (qm s)) s)
  | token_wakeup k =>
      match loop s with
      | Dispatching tasks =>
          match tasks !! k with
          | Some t =>
              if task_token t then None
              else
                match acquireRateLimitToken (qm s) with
                | Some st' =>
                    Some {| qm := st';
                            loop := Dispatching
                              (<[k := {| task_job := task_job t; task_start := task_start t;
                                         task_token := true |}]> tasks);
                            cancelling := cancelling s |}
                | None => Some s
                end
          | None => None
          end
      | _ => None
      end
  | runJob_settled k now rnd result =>
      match loop s with
      | Dispatching tasks =>
          match tasks !! k with
          | Some t =>
              if task_token t then
                let st' := match result with
                           | RunOk rid => processJob_queued (task_start t) (task_job t) rid (qm s)
                           | RunThrows m => processJob_catch config now rnd (task_job t) m (qm s)
                           end in
                Some {| qm := st'; loop := Dispatching (delete k tasks);
                        cancelling := cancelling s |}
              else None
          | None => None
          end
      | _ => None
      end
  | poll_next jobId =>
      match loop s with
      | Polling None rest =>
          if bool_decide (jobId ∈ rest) then
            Some (with_loop
                    (Polling ((fun info => (jobId, info)) <$> activeJobs (qm s) !! jobId)
                             (remove_first jobId rest)) s)
          else None
      | _ => None
      end
  | getJobStatus_settled now status =>
      match loop s with
      | Polling (Some (jobId, info)) rest =>
          Some {| qm := pollActiveJobs_body now jobId info status (qm s);
                  loop := Polling None rest; cancelling := cancelling s |}
      | _ => None
      end
  | cost_logged entry =>
      Some (with_qm
              (with_db (fun db => Db (jobs db) (dead_letter_queue db) (cost_log db ++ [entry]))
                       (qm s)) s)
  | process_restart =>
      Some {| qm := new_QueueManager config (database (qm s)); loop := Idle;
              cancelling := [] |}
  end.

(** A run of the event loop whose turns all pass the guard [ok]. *)
Fixpoint run (ok : Label -> System -> bool) (ls : list Label) (s : System)
    : option System :=
  match ls with
  | [] => Some s
  | l :: rest =>
      if ok l s then
        match step l s with
        | Some s' => run ok rest s'
        | None => None
        end
      else None
  end.

Definition empty_db : Database := Db [] [] [].

Definition initial : System :=
  {| qm := new_QueueManager config empty_db; loop := Idle; cancelling := [] |}.

Definition reachable_by (ok : Label -> System -> bool) (s : System) : Prop :=
  exists ls, run ok ls initial = Some s.

Definition any_turn (l : Label) (s : System) : bool := true.

Definition reachable (s : System) : Prop := reachable_by any_turn s.

End EventLoop.

(** ** The deduplication invariant *)

Definition non_terminal (st : Status) : bool :=
  match st with
  | PENDING | RUNNING | IN_QUEUE => true
  | COMPLETED | FAILED | CANCELLED => false
  end.

Definition live_with_hash (h : string) (r : Job.row) : bool :=
  String.eqb (Job.input_hash r) h && non_terminal (Job.status r).

(** At most one job row per input hash is in a non-terminal status. *)
Definition one_live_job_per_hash (db : Database) : Prop :=
  forall h, (length (filter (fun r => live_with_hash h r) (jobs db)) <= 1)%nat.

(** The [processJob] calls that are suspended, and the ids of their jobs. *)
Definition tasks_of (l : Loop) : list Task :=
  match l with
  | Dispatching tasks => tasks
  | _ => []
  end.

Definition in_flight (s : System) : list string :=
  map (fun t => Job.id (task_job t)) (tasks_of (loop s)).

(** The turns that neither bypass deduplication nor cancel a job while
    its dispatch is in flight. *)
Definition keeps_deduplication (l : Label) (s : System) : bool :=
  match l with
  | call_submitJob _ _ _ _ options => negb (default false (skipDeduplication options))
  | call_retryDeadLetter _ _ _ => false
  | call_cancelJob jobId => bool_decide (jobId ∉ in_flight s)
  | _ => true
  end.

(** ** Configurations, inputs and states used in the examples *)

(** The defaults of config/env.js, the daily limit being 50 dollars. *)
Definition default_config : Config :=
  {| budgetLimitDaily := 5000; maxConcurrentJobs := 5;
     rateLimitPerSecond := 2; maxRetryAttempts := 5 |}.

Definition nested_1 : JSON := JObj [("a", JObj [("b", JNum 1)])].
Definition nested_2 : JSON := JObj [("a", JObj [("b", JNum 2)])].
Definition cat_input : JSON := JObj [("prompt", JStr "cat")].
Definition ep1 : option JSON := Some (JStr "ep1").

Definition fresh : State := new_QueueManager default_config empty_db.

(** The state after one accepted submission of [nested_1]. *)
Definition after_nested_1 : State :=
  snd (submitJob default_config "job-1" 1000 ep1 nested_1 no_options fresh).



(** A state with one job that the backend has accepted. *)
Definition queued_job : Job.row :=
  Job.Row "job-1" (Some "r1") (Some "ep1") IN_QUEUE "67c3aa923cd483dc" cat_input
          None None None None 1 None 1 (Some 2000) None.

Definition one_active : State :=
  {| isProcessing := false;
     activeJobs := {[ "job-1" := {| runpodJobId := "r1"; endpointId := Some "ep1";
                                    startTime := 2000 |} ]};
     rateLimitTokens := 1; sent := []; database := Db [queued_job] [] [] |}.

(** A configuration with three attempts, and a backend that rejects
    every dispatch of the one job submitted. *)
Definition retry_config : Config :=
  {| budgetLimitDaily := 5000; maxConcurrentJobs := 5;
     rateLimitPerSecond := 2; maxRetryAttempts := 3 |}.

Definition failing_round (now : Z) : list Label :=
  [timer_refill; timer_tick now; runJob_settled 0 (now + 5) 0.5%float (RunThrows "boom");
   all_settled; tick_done].

Definition exhausted : option System :=
  run retry_config any_turn
    (call_submitJob "job-1" 1000 ep1 cat_input no_options
       :: failing_round 2000 ++ failing_round 3000 ++ failing_round 4000)
    (initial retry_config).

(** Two submissions of one input, the second bypassing deduplication. *)
Definition resubmitted : list Label :=
  [call_submitJob "job-1" 1000 ep1 cat_input no_options;
   call_submitJob "job-2" 2000 ep1 cat_input {| skipDeduplication := Some true |}].

(** A job cancelled while its dispatch is in flight, submitted again, and
    then accepted by the backend. *)
Definition cancelled_in_flight : list Label :=
  [call_submitJob "job-1" 1000 ep1 cat_input no_options;
   timer_tick 2000;
   call_cancelJob "job-1";
   call_submitJob "job-2" 3000 ep1 cat_input no_options;
   runJob_settled 0 4000 0%float (RunOk "r1")].

(** One job that the backend accepts as r1 and reports COMPLETED at the
    first poll. *)
Definition completed_run : list Label :=
  [call_submitJob "job-1" 1000 ep1 cat_input no_options;
   timer_tick 2000;
   runJob_settled 0 2300 0%float (RunOk "r1");
   all_settled;
   poll_next "job-1";
   getJobStatus_settled 2900 (RemoteCompleted (JObj [("url", JStr "x.png")]));
   tick_done].




(** ** State predicates of the invariants *)

Definition tokens_in_range (config : Config) (st : State) : Prop :=
  0 <= rateLimitTokens st <= rateLimitPerSecond config.

(** A row that no backend has accepted yet. *)
Definition undispatched (st : Status) : bool :=
  match st with
  | PENDING | RUNNING => true
  | _ => false
  end.

(** What the table [jobs] satisfies as long as deduplication is kept. *)
Record store_ok (rows : list Job.row) : Prop := {
  ids_unique : NoDup (map Job.id rows);
  undispatched_no_handle :
    forall r, r ∈ rows -> undispatched (Job.status r) = true -> Job.runpod_job_id r = None;
  live_unique :
    forall h, (length (filter (fun r => live_with_hash h r) rows) <= 1)%nat }.

(** The store is in order, every suspended [processJob] call has its row
    in status RUNNING, and every [cancelJob] call that waits for the
    backend is about a row that the backend had accepted. *)
Record dedup_safe (s : System) : Prop := {
  safe_store : store_ok (jobs (database (qm s)));
  safe_tasks_unique : NoDup (in_flight s);
  safe_tasks_running :
    forall i, i ∈ in_flight s ->
      exists r, r ∈ jobs (database (qm s)) /\ Job.id r = i /\ Job.status r = RUNNING;
  safe_cancelling :
    forall j, j ∈ cancelling s ->
      exists r, r ∈ jobs (database (qm s)) /\ Job.id r = j
                /\ is_Some (Job.runpod_job_id r) }.


(** The state in the middle of a first tick that dispatches one job. *)
Definition dispatching_one : System :=
  default (initial default_config)
    (run default_config any_turn
       [call_submitJob "job-1" 1000 (Some (JStr "ep1")) (JObj [("prompt", JStr "cat")])
          no_options;
        timer_tick 2000]
       (initial default_config)).

(** ** Doubles between integers *)





(** ** The cost ledger and the budget check of the cost tracker *)


(** [canSpend] (services/cost-tracker.js). *)
Definition canSpend (config : Config) (now : Z) (estimatedCost : Z) (db : Database) : bool :=
  getTodaySpend now db + estimatedCost <=? budgetLimitDaily config.


(** The state after the run [completed_run], and the same after a
    cancellation of its job. *)
Definition completed : System :=
  default (initial default_config)
    (run default_config any_turn completed_run (initial default_config)).

Definition cancelled_after_completion : System :=
  default completed (run default_config keeps_deduplication [call_cancelJob "job-1"] completed).

(** ** What the turns of the event loop do to the tables *)

(** The columns of a job row that no UPDATE of the queue manager names. *)
Definition fixed_columns (r : Job.row)
  : string * option string * string * JSON * option string * option Z * Z :=
  (Job.id r, Job.endpoint_id r, Job.input_hash r, Job.input r, Job.gpu_used r,
   Job.cost_usd r, Job.created_at r).

Definition no_cost (c : string * option string * string * JSON * option string * option Z * Z)
  : Prop := c.1.1.2 = None /\ c.1.2 = None.

(** What an operation may do to the database: update job rows in place,
    their fixed columns apart, append one job row under a new id, append
    one dead letter under a new id. *)
Record db_step (db db' : Database) : Prop := {
  step_jobs :
    map fixed_columns (jobs db') = map fixed_columns (jobs db)
    \/ exists r, map fixed_columns (jobs db') = map fixed_columns (jobs db) ++ [fixed_columns r]
         /\ (Job.id r ∉ map Job.id (jobs db))
         /\ Job.gpu_used r = None /\ Job.cost_usd r = None;
  step_dlq :
    dead_letter_queue db' = dead_letter_queue db
    \/ exists d, dead_letter_queue db' = dead_letter_queue db ++ [d]
         /\ (Dlq.id d ∉ map Dlq.id (dead_letter_queue db));
  step_cost_log : cost_log db' = cost_log db }.

(** The turns other than the logging of a cost. *)
Definition logs_no_cost (l : Label) (s : System) : bool :=
  match l with
  | cost_logged _ => false
  | _ => true
  end.

(** The ids of the rows that a turn of the event loop may update. *)
Definition touched (config : Config) (l : Label) (s : System) : list string :=
  match l with
  | call_cancelJob jobId => [jobId]
  | remote_cancel_settled jobId _ => [jobId]
  | timer_tick _ =>
      if isProcessing (qm s) then []
      else map Job.id (tick_fetch config (with_processing true (qm s)))
  | runJob_settled k _ _ _ =>
      match tasks_of (loop s) !! k with
      | Some t => [Job.id (task_job t)]
      | None => []
      end
  | getJobStatus_settled _ _ =>
      match loop s with
      | Polling (Some (jobId, _)) _ => [jobId]
      | _ => []
      end
  | _ => []
  end.

(** A job that the manager holds in none of its structures: no
    [processJob] call is suspended on it, it is not in [activeJobs], no
    [getJobStatus] call is out for it, no [cancelJob] call waits for it. *)
Definition untracked (i : string) (s : System) : Prop :=
  (i ∉ in_flight s)
  /\ activeJobs (qm s) !! i = None
  /\ (forall info rest, loop s <> Polling (Some (i, info)) rest)
  /\ (i ∉ cancelling s).

Definition frozen (i : string) (r : Job.row) (s : System) : Prop :=
  NoDup (map Job.id (jobs (database (qm s))))
  /\ getJob i (database (qm s)) = Some r
  /\ untracked i s.

(** The turns that do not call [cancelJob] on the job [i]. *)
Definition leaves_alone (i : string) (l : Label) (s : System) : bool :=
  match l with
  | call_cancelJob jobId => negb (String.eqb jobId i)
  | _ => true
  end.

(** The process starting anew in the middle of a dispatch, and a whole
    tick after that. *)
Definition restarted : System :=
  default (initial default_config)
    (run default_config any_turn [process_restart; timer_tick 3000; all_settled; tick_done]
       dispatching_one).

(** The row of job-1 in [dispatching_one], and the state in which the
    retries of [retry_config] are used up. *)
Definition running_job : Job.row :=
  Job.Row "job-1" None (Some "ep1") RUNNING "67c3aa923cd483dc" cat_input None None
          None None 1 None 1 (Some 2000) None.

Definition exhausted_state : System := default (initial retry_config) exhausted.

(** ** Listing and counting jobs (db/database.js, services/queue-manager.js) *)





(** The row that [getJobStats] returns; [None] is NULL. *)
Module Stats.
Record row := Row {
  total : Z;
  completed : option Z;
  failed : option Z;
  pending : option Z;
  running : option Z;
  avg_duration : option Q;
  total_cost : option Z }.
End Stats.

(** SUM and AVG skip NULL and are NULL when nothing is left. *)
Definition sql_sum (values : list (option Z)) : option Z :=
  match omap (fun v => v) values with
  | [] => None
  | l => Some (foldr Z.add 0 l)
  end.

Definition sql_avg (values : list (option Z)) : option Q :=
  match omap (fun v => v) values with
  | [] => None
  | l => Some (Qdiv (inject_Z (foldr Z.add 0 l)) (inject_Z (Z.of_nat (length l))))
  end.

(** SUM(CASE WHEN status = s THEN 1 ELSE 0 END) *)
Definition sum_case (s : Status) (rows : list Job.row) : option Z :=
  sql_sum (map (fun r => Some (if bool_decide (Job.status r = s) then 1 else 0)) rows).

Definition getJobStats (db : Database) : Stats.row :=
  Stats.Row (Z.of_nat (length (jobs db)))
            (sum_case COMPLETED (jobs db))
            (sum_case FAILED (jobs db))
            (sum_case PENDING (jobs db))
            (sum_case RUNNING (jobs db))
            (sql_avg (map Job.duration_ms (jobs db)))
            (sql_sum (map Job.cost_usd (jobs db))).

(** [getStats], the count of connected clients apart. *)
Record QueueStats := {
  dbStats : Stats.row;
  stats_activeJobs : Z;
  stats_rateLimitTokens : Z }.

Definition getStats (st : State) : QueueStats :=
  {| dbStats := getJobStats (database st);
     stats_activeJobs := Z.of_nat (size (activeJobs st));
     stats_rateLimitTokens := rateLimitTokens st |}.

(** The number of rows in status [s]. *)
Definition count_status (s : Status) (rows : list Job.row) : Z :=
  Z.of_nat (length (filter (fun r => Job.status r = s) rows)).

(** ** The tracked pods (db/database.js, server.js, services/auto-shutdown.js) *)

(** A row of table [active_pods]; the fields are the columns of the
    schema, [None] is NULL. *)
Module Pod.
Record row := Row {
  id : string;
  name : option string;
  gpu_type : option string;
  cost_per_hour : option Z;
  status : option string;
  task_type : option string;
  port : option Z;
  spending_limit : option Z;
  total_spent : option Z;
  last_activity : Z;
  created_at : Z }.
End Pod.

(** The object handed to [trackPod], as far as [trackPod] reads it;
    [None] is a key that is absent. *)
Record PodInfo := {
  pod_id : string;
  pod_name : option string;
  pod_gpuType : option string;
  pod_costPerHour : option Z;
  pod_status : option string;
  pod_taskType : option string;
  pod_port : option Z;
  pod_spendingLimit : option Z }.

(** [v || null] on a string and on a number. *)
Definition text_or_null (v : option string) : option string :=
  match v with
  | Some s => if String.eqb s EmptyString then None else Some s
  | None => None
  end.

Definition number_or_null (v : option Z) : option Z :=
  match v with
  | Some n => if n =? 0 then None else Some n
  | None => None
  end.

Definition has_pod_id (i : string) (p : Pod.row) : bool := String.eqb (Pod.id p) i.

(** [trackPod]: INSERT OR REPLACE; the two subqueries read the row that
    the statement replaces. *)
Definition trackPod (now : Z) (pod : PodInfo) (pods : list Pod.row) : list Pod.row :=
  let old := List.find (has_pod_id (pod_id pod)) pods in
  filter (fun p => negb (has_pod_id (pod_id pod) p)) pods ++
  [Pod.Row (pod_id pod) (pod_name pod) (pod_gpuType pod) (pod_costPerHour pod)
           (pod_status pod) (text_or_null (pod_taskType pod))
           (number_or_null (pod_port pod)) (number_or_null (pod_spendingLimit pod))
           (Some (default 0 (old ≫= Pod.total_spent)))
           (seconds now)
           (default (seconds now) (Pod.created_at <$> old))].

Definition set_last_activity (t : Z) (p : Pod.row) : Pod.row :=
  Pod.Row (Pod.id p) (Pod.name p) (Pod.gpu_type p) (Pod.cost_per_hour p) (Pod.status p)
          (Pod.task_type p) (Pod.port p) (Pod.spending_limit p) (Pod.total_spent p)
          t (Pod.created_at p).

Definition set_total_spent (v : option Z) (p : Pod.row) : Pod.row :=
  Pod.Row (Pod.id p) (Pod.name p) (Pod.gpu_type p) (Pod.cost_per_hour p) (Pod.status p)
          (Pod.task_type p) (Pod.port p) (Pod.spending_limit p) v
          (Pod.last_activity p) (Pod.created_at p).

(** [updatePodActivity], [updatePodSpending]: UPDATE ... WHERE id = ? *)
Definition updatePodActivity (now : Z) (podId : string) (pods : list Pod.row)
  : list Pod.row :=
  map (fun p => if has_pod_id podId p then set_last_activity (seconds now) p else p) pods.

Definition updatePodSpending (podId : string) (totalSpent : option Z) (pods : list Pod.row)
  : list Pod.row :=
  map (fun p => if has_pod_id podId p then set_total_spent totalSpent p else p) pods.

Definition getTrackedPods (pods : list Pod.row) : list Pod.row := pods.

(** [removePod]: DELETE FROM active_pods WHERE id = ? *)
Definition removePod (podId : string) (pods : list Pod.row) : list Pod.row :=
  filter (fun p => negb (has_pod_id podId p)) pods.

Definition is_running (p : Pod.row) : bool :=
  match Pod.status p with
  | Some s => String.eqb s "RUNNING"
  | None => false
  end.

(** [getInactivePods]: the threshold is a count of minutes, written into
    the statement as [+N minutes]. *)
Definition getInactivePods (minutesThreshold : nat) (now : Z) (pods : list Pod.row)
  : list Pod.row :=
  filter (fun p => (Pod.last_activity p + 60 * Z.of_nat minutesThreshold <? seconds now)
                   && is_running p) pods.

(** The pods that [checkSpendingLimits] does not skip (line 110):
    [!pod.spending_limit || pod.status !== 'RUNNING']. *)
Definition spending_checked (p : Pod.row) : bool :=
  match Pod.spending_limit p with
  | Some n => negb (n =? 0)
  | None => false
  end && is_running p.

(** The handlers of POST /api/pods/:id/stop, POST /api/pods/:id/start and
    DELETE /api/pods/:id (server.js), once the backend has answered. *)
Definition api_pod_stop (now : Z) (podId : string) (pods : list Pod.row) : list Pod.row :=
  trackPod now {| pod_id := podId; pod_name := None; pod_gpuType := None;
                  pod_costPerHour := None; pod_status := Some "STOPPED";
                  pod_taskType := None; pod_port := None; pod_spendingLimit := None |} pods.

Definition api_pod_start (now : Z) (podId : string) (pods : list Pod.row) : list Pod.row :=
  updatePodActivity now podId pods.

Definition api_pod_delete (podId : string) (pods : list Pod.row) : list Pod.row :=
  removePod podId pods.

(** The object the driver builds for a row of [SELECT * FROM active_pods]. *)
Definition pod_object (p : Pod.row) : JSON :=
  JObj [ ("id", JStr (Pod.id p));
         ("name", nullable JStr (Pod.name p));
         ("gpu_type", nullable JStr (Pod.gpu_type p));
         ("cost_per_hour", nullable JNum (Pod.cost_per_hour p));
         ("status", nullable JStr (Pod.status p));
         ("task_type", nullable JStr (Pod.task_type p));
         ("port", nullable JNum (Pod.port p));
         ("spending_limit", nullable JNum (Pod.spending_limit p));
         ("total_spent", nullable JNum (Pod.total_spent p));
         ("last_activity", JNum (Pod.last_activity p));
         ("created_at", JNum (Pod.created_at p)) ].

(** [getPodEngine] (server.js): [trackedPod?.taskType]. *)
Definition getPodEngine (podId : string) (pods : list Pod.row) : string :=
  let trackedPod := List.find (has_pod_id podId) (getTrackedPods pods) in
  match trackedPod ≫= (fun p => get_prop "taskType" (pod_object p)) with
  | Some (JStr "imageGenA1111") => "a1111"
  | Some (JStr "musicGen") => "musicGen"
  | _ => "comfyui"
  end.

(** The columns that the handler of POST /api/pods/:id/stop leaves to a
    pod. *)
Definition stopped_columns (q : Pod.row) : Prop :=
  Pod.name q = None /\ Pod.gpu_type q = None /\ Pod.cost_per_hour q = None
  /\ Pod.task_type q = None /\ Pod.port q = None /\ Pod.spending_limit q = None
  /\ Pod.status q = Some "STOPPED".

Definition without_limit (pod : PodInfo) : PodInfo :=
  {| pod_id := pod_id pod; pod_name := pod_name pod; pod_gpuType := pod_gpuType pod;
     pod_costPerHour := pod_costPerHour pod; pod_status := pod_status pod;
     pod_taskType := pod_taskType pod; pod_port := pod_port pod;
     pod_spendingLimit := None |}.

(** A pod as POST /api/pods tracks it, here without a spending limit
    worth the name, and the table that holds it. *)
Definition music_pod : PodInfo :=
  {| pod_id := "pod-1"; pod_name := Some "studio"; pod_gpuType := Some "RTX 4090";
     pod_costPerHour := Some 44; pod_status := Some "RUNNING";
     pod_taskType := Some "musicGen"; pod_port := Some 7860;
     pod_spendingLimit := Some 0 |}.

Definition one_pod : list Pod.row := trackPod 1000000 music_pod [].

(** * Properties *)

Example sha256_abc :
  SHA256.sha256_hex "abc"
  = "ba7816bf8f01cfea414140de5dae2223b00361a396177a9cb410ff61f20015ad".
Proof. vm_compute. reflexivity. Qed.

Example sha256_empty :
  SHA256.sha256_hex EmptyString
  = "e3b0c44298fc1c149afbf4c8996fb92427ae41e4649b934ca495991b7852b855".
Proof. vm_compute. reflexivity. Qed.

Example sha256_two_blocks :
  SHA256.sha256_hex "abcdbcdecdefdefgefghfghighijhijkijkljklmklmnlmnomnopnopq"
  = "248d6a61d20638b8e5c026930c3e6039a33ce45964ff2167f6ecedd419db06c1".
Proof. vm_compute. reflexivity. Qed.

Example stringify_flat :
  JSON_stringify (JObj [("b", JNum 2); ("a", JStr "x")]) ["a"; "b"]
  = String "{" (String dquote ("a" +:+ String dquote (":" +:+ String dquote ("x" +:+
      String dquote ("," +:+ String dquote ("b" +:+ String dquote ":2}")))))).
Proof. vm_compute. reflexivity. Qed.

(** ** Serialization *)

Lemma JSON_ind (P : JSON -> Prop) :
  P JNull -> (forall b, P (JBool b)) -> (forall n, P (JNum n)) -> (forall s, P (JStr s)) ->
  (forall items, Forall P items -> P (JArr items)) ->
  (forall props, Forall (fun p => P (snd p)) props -> P (JObj props)) ->
  forall v, P v.
Proof.
  intros Hnull Hbool Hnum Hstr Harr Hobj.
  fix IH 1. intros [ | b | n | s | items | props].
  - exact Hnull.
  - apply Hbool.
  - apply Hnum.
  - apply Hstr.
  - apply Harr. induction items as [|x items IHitems]; constructor.
    + apply IH.
    + exact IHitems.
  - apply Hobj. induction props as [|[k x] props IHprops]; constructor.
    + apply IH.
    + exact IHprops.
Qed.

Lemma assoc_map {A B : Type} (f : A -> B) key (props : list (string * A)) :
  assoc key (map (fun p => (fst p, f (snd p))) props) = f <$> assoc key props.
Proof.
  induction props as [|[k v] props IH]; simpl; [done|].
  destruct (String.eqb k key); [done|apply IH].
Qed.

Lemma assoc_filter_keys {A : Type} (keys : list string) key (props : list (string * A)) :
  key ∈ keys ->
  assoc key (filter (fun p => fst p ∈ keys) props) = assoc key props.
Proof.
  intros Hin. induction props as [|[k v] props IH]; simpl; [done|].
  rewrite filter_cons. simpl. destruct (String.eqb k key) eqn:E.
  - apply String.eqb_eq in E. subst k. rewrite decide_True by done. simpl.
    by rewrite String.eqb_refl.
  - destruct (decide (k ∈ keys)); simpl; [by rewrite E|done].
Qed.

Lemma assoc_Some_in {A : Type} key (props : list (string * A)) v :
  assoc key props = Some v -> (key, v) ∈ props.
Proof.
  induction props as [|[k x] props IH]; simpl; [done|].
  destruct (String.eqb k key) eqn:E.
  - apply String.eqb_eq in E. intros [= ->]. subst. left.
  - intros H. right. auto.
Qed.

Lemma omap_ext_in {A B : Type} (f g : A -> option B) (l : list A) :
  (forall x, x ∈ l -> f x = g x) -> omap f l = omap g l.
Proof.
  induction l as [|x l IH]; intros H; [done|].
  assert (Hx : f x = g x) by (apply H; left).
  assert (Hl : omap f l = omap g l) by (apply IH; intros y Hy; apply H; by right).
  change (omap f (x :: l)) with (match f x with Some y => y :: omap f l | None => omap f l end).
  change (omap g (x :: l)) with (match g x with Some y => y :: omap g l | None => omap g l end).
  by rewrite Hx, Hl.
Qed.

(** Pruning by [keys] is invisible to a serialization whose property list
    is drawn from [keys]. *)
Lemma serialize_prune (K keys : list string) :
  (forall P, P ∈ K -> P ∈ keys) ->
  forall v, SerializeJSONProperty K (prune keys v) = SerializeJSONProperty K v.
Proof.
  intros Hsub v. induction v as [ | b | n | s | items IH | props IH] using JSON_ind;
    try reflexivity.
  - simpl. do 3 f_equal. rewrite map_map. apply map_ext_in.
    intros x Hx. rewrite Forall_forall in IH. apply IH. by apply list_elem_of_In.
  - simpl. do 3 f_equal. apply omap_ext_in. intros P HP. f_equal.
    rewrite (assoc_map (SerializeJSONProperty K)).
    rewrite (assoc_filter_keys keys) by auto.
    rewrite (assoc_map (prune keys)), (assoc_map (SerializeJSONProperty K)).
    destruct (assoc P props) as [x|] eqn:E; simpl; [|done].
    f_equal. rewrite Forall_forall in IH.
    apply (IH (P, x)). by apply assoc_Some_in.
Qed.

Lemma elem_of_sort_insert k l (P : string) :
  P ∈ sort_insert k l -> P = k \/ P ∈ l.
Proof.
  induction l as [|x l IH]; simpl.
  - intros ->%list_elem_of_singleton. by left.
  - destruct (String.leb k x).
    + intros [->|H]%elem_of_cons; auto.
    + intros [->|H]%elem_of_cons; [right; left|].
      destruct (IH H) as [->|H']; [by left|right; by right].
Qed.

Lemma elem_of_Array_sort l (P : string) : P ∈ Array_sort l -> P ∈ l.
Proof.
  induction l as [|x l IH]; simpl; [done|].
  intros [->|H]%elem_of_sort_insert; [left|right; auto].
Qed.

Lemma elem_of_property_list seen l (P : string) : P ∈ property_list seen l -> P ∈ l.
Proof.
  revert seen. induction l as [|x l IH]; intros seen; simpl; [done|].
  case_bool_decide.
  - intros Hin. right. eauto.
  - intros [->|Hin]%elem_of_cons; [left|right; eauto].
Qed.

Lemma filter_all {A : Type} (P : A -> Prop) `{Hdec : forall x, Decision (P x)} (l : list A) :
  Forall P l -> filter P l = l.
Proof.
  induction 1 as [|x l Hx Hl IH]; [done|].
  rewrite filter_cons, decide_True by done. by rewrite IH.
Qed.

Lemma Object_keys_prune input :
  Object_keys (prune (top_keys input) input) = Object_keys input.
Proof.
  destruct input as [ | b | n | s | items | props]; try reflexivity.
  - simpl. by rewrite length_map.
  - unfold top_keys. simpl. f_equal.
    rewrite filter_all.
    + rewrite map_map. simpl. done.
    + apply Forall_forall. intros [k v] Hin. simpl.
      apply list_elem_of_fmap in Hin as [[k' v'] [[= -> ->] Hin]].
      apply list_elem_of_fmap. by exists (k', v').
Qed.

(** [hashInput] does not see what [prune] removes. *)
Lemma hashInput_prune input :
  hashInput (prune (top_keys input) input) = hashInput input.
Proof.
  unfold hashInput. rewrite Object_keys_prune.
  destruct (Object_keys input) as [keys|] eqn:E; [|done].
  unfold JSON_stringify, top_keys. rewrite E. simpl.
  rewrite serialize_prune; [done|].
  intros P HP. by apply elem_of_property_list, elem_of_Array_sort in HP.
Qed.

(** ** ORDER BY *)

Section OrderBy.

Context {A : Type} (le : A -> A -> bool).
Hypothesis le_total : forall a b, le a b = true \/ le b a = true.
Hypothesis le_trans : forall a b c, le a b = true -> le b c = true -> le a c = true.

Lemma insert_by_perm x l : insert_by le x l ≡ₚ x :: l.
Proof.
  induction l as [|y l IH]; simpl; [done|].
  destruct (le x y); [done|]. rewrite IH. apply Permutation_swap.
Qed.

Lemma order_by_perm l : order_by le l ≡ₚ l.
Proof.
  induction l as [|x l IH]; simpl; [done|].
  rewrite insert_by_perm. by rewrite IH.
Qed.

Lemma insert_by_sorted x l :
  StronglySorted (fun a b => le a b = true) l ->
  StronglySorted (fun a b => le a b = true) (insert_by le x l).
Proof.
  induction 1 as [|y l Hl IH Hy]; simpl.
  - repeat constructor.
  - destruct (le x y) eqn:E.
    + constructor; [by constructor|].
      constructor; [done|]. eapply Forall_impl; [exact Hy|].
      intros z Hz. simpl in Hz. eauto.
    + constructor; [done|].
      assert (Hyx : le y x = true) by (destruct (le_total x y); congruence).
      rewrite insert_by_perm. by constructor.
Qed.

Lemma order_by_sorted l : StronglySorted (fun a b => le a b = true) (order_by le l).
Proof.
  induction l as [|x l IH]; simpl; [constructor|]. by apply insert_by_sorted.
Qed.

Lemma le_refl a : le a a = true.
Proof. by destruct (le_total a a). Qed.

(** The first row of an ordered selection precedes all the rows selected. *)
Lemma head_order_by l x :
  head (order_by le l) = Some x -> x ∈ l /\ forall y, y ∈ l -> le x y = true.
Proof.
  intros Hhead. pose proof (order_by_sorted l) as Hs. pose proof (order_by_perm l) as Hp.
  destruct (order_by le l) as [|x' rest]; simplify_eq/=.
  split.
  - rewrite <- Hp. left.
  - intros y Hy. rewrite <- Hp in Hy. apply StronglySorted_inv in Hs as [_ Hall].
    apply elem_of_cons in Hy as [->|Hy]; [apply le_refl|].
    rewrite Forall_forall in Hall. auto.
Qed.

Lemma head_order_by_is_Some l : l <> [] -> is_Some (head (order_by le l)).
Proof.
  intros Hne. pose proof (order_by_perm l) as Hp.
  destruct (order_by le l) as [|x rest]; [|by eexists].
  apply Permutation_nil_l in Hp. congruence.
Qed.

End OrderBy.

(** ** The queries of the job store *)



Lemma created_desc_total a b : created_desc a b = true \/ created_desc b a = true.
Proof. unfold created_desc. rewrite !Z.leb_le. lia. Qed.

Lemma created_desc_trans a b c :
  created_desc a b = true -> created_desc b c = true -> created_desc a c = true.
Proof. unfold created_desc. rewrite !Z.leb_le. lia. Qed.

Lemma head_take_1 {A : Type} (l : list A) : head (take 1 l) = head l.
Proof. by destruct l. Qed.

Lemma hash_match_spec h r :
  hash_match h r <-> Job.input_hash r = h /\ dedup_status (Job.status r) = true.
Proof.
  unfold hash_match. rewrite andb_True, Is_true_true, String.eqb_eq.
  by rewrite Is_true_true.
Qed.

(** What [getJobByHash] returns: a matching row that no matching row was
    created after, or nothing when no row matches. *)
Lemma getJobByHash_Some h db e :
  getJobByHash h db = Some e ->
  e ∈ jobs db /\ Job.input_hash e = h /\ dedup_status (Job.status e) = true /\
  forall r, r ∈ jobs db -> Job.input_hash r = h -> dedup_status (Job.status r) = true ->
            Job.created_at r <= Job.created_at e.
Proof.
  unfold getJobByHash, sql_limit. simpl. rewrite head_take_1. intros Hhead.
  apply head_order_by in Hhead as [Hin Hmax];
    [|apply created_desc_total|apply created_desc_trans].
  apply list_elem_of_filter in Hin as [Hm Hin].
  apply hash_match_spec in Hm as [Hh Hs].
  repeat split; try done.
  intros r Hr Hrh Hrs.
  assert (Hle : created_desc e r = true).
  { apply Hmax. apply list_elem_of_filter. split; [|done]. by apply hash_match_spec. }
  unfold created_desc in Hle. by apply Z.leb_le in Hle.
Qed.

Lemma getJobByHash_None h db r :
  getJobByHash h db = None ->
  r ∈ jobs db -> Job.input_hash r = h -> dedup_status (Job.status r) = false.
Proof.
  unfold getJobByHash, sql_limit. simpl. rewrite head_take_1. intros Hhead Hr Hh.
  destruct (dedup_status (Job.status r)) eqn:Hs; [|done].
  destruct (head_order_by_is_Some created_desc
              (filter (fun r => hash_match h r) (jobs db))) as [x Hx]; [|congruence].
  intros Hnil.
  assert (Hin : r ∈ filter (fun r => hash_match h r) (jobs db)).
  { apply list_elem_of_filter. split; [|done]. by apply hash_match_spec. }
  rewrite Hnil in Hin. by apply not_elem_of_nil in Hin.
Qed.

Lemma getJobByHash_is_Some h db r :
  r ∈ jobs db -> Job.input_hash r = h -> dedup_status (Job.status r) = true ->
  is_Some (getJobByHash h db).
Proof.
  intros Hr Hh Hs. destruct (getJobByHash h db) eqn:E; [by eexists|].
  pose proof (getJobByHash_None _ _ _ E Hr Hh). congruence.
Qed.

(** ** [submitJob] *)

Lemma submitJob_duplicate config uuid now endpointId input options st h e :
  default false (skipDeduplication options) = false ->
  hashInput input = inr h ->
  getJobByHash h (database st) = Some e ->
  submitJob config uuid now endpointId input options st = (inr (Deduplicated e), st).
Proof. intros Hskip Hh He. unfold submitJob. by rewrite Hh, Hskip, He. Qed.

(** A submission that is queued has appended one PENDING row that carries
    the hash of its input. *)
Lemma submitJob_Queued config uuid now endpointId input options st i s st' :
  submitJob config uuid now endpointId input options st = (inr (Queued i s), st') ->
  exists h,
    hashInput input = inr h /\ i = uuid /\ s = PENDING /\
    existsb (has_id uuid) (jobs (database st)) = false /\
    database st' =
      with_jobs (jobs (database st) ++
        [Job.Row uuid None (as_text endpointId) PENDING h input None None None None 0 None
                 (seconds now) None None]) (database st) /\
    sent st' = sent st ++ [job_created uuid PENDING] /\
    activeJobs st' = activeJobs st /\ rateLimitTokens st' = rateLimitTokens st /\
    isProcessing st' = isProcessing st.
Proof.
  unfold submitJob. destruct (hashInput input) as [e|h]; [intros [=]|].
  destruct (if negb _ then _ else _); [intros [=]|].
  destruct (_ <=? _); [intros [=]|].
  unfold createJob. simpl. destruct (existsb _ _) eqn:Hex; [intros [=]|].
  intros [= <- <- <-]. exists h. by repeat split.
Qed.

Lemma length_string_of_list_ascii l :
  String.length (string_of_list_ascii l) = length l.
Proof. induction l; simpl; congruence. Qed.

Lemma length_sha256_hex s : String.length (SHA256.sha256_hex s) = 64%nat.
Proof.
  unfold SHA256.sha256_hex, SHA256.hex. rewrite length_string_of_list_ascii.
  rewrite !length_app. unfold SHA256.hex_word. by rewrite !length_map.
Qed.

Lemma length_substring_0 n s :
  (n <= String.length s)%nat -> String.length (String.substring 0 n s) = n.
Proof.
  revert s. induction n as [|n IH]; intros [|c s]; simpl; try done; try lia.
  intros H. rewrite IH; [done|lia].
Qed.

Lemma hashInput_length input h : hashInput input = inr h -> String.length h = 16%nat.
Proof.
  unfold hashInput. destruct (Object_keys input) as [keys|]; [|done].
  pose proof (length_sha256_hex (JSON_stringify input (Array_sort keys))) as Hlen.
  revert Hlen. generalize (SHA256.sha256_hex (JSON_stringify input (Array_sort keys))).
  intros d Hlen [= <-]. apply length_substring_0. lia.
Qed.





(** C10: [hashInput] filters by the top-level keys at every depth, so
    members of nested objects under other keys never reach the hash; two
    inputs that differ only there have the same 16-character hash, and
    the second is answered as a duplicate of the first. *)
Theorem hashInput_ignores_nested_members :
  (forall input, hashInput (prune (top_keys input) input) = hashInput input)
  /\ (nested_1 <> nested_2
      /\ prune (top_keys nested_1) nested_1 = prune (top_keys nested_2) nested_2
      /\ hashInput nested_1 = inr "5d8171b9fc362e38"
      /\ hashInput nested_2 = inr "5d8171b9fc362e38")
  /\ (forall input h, hashInput input = inr h -> String.length h = 16%nat)
  /\ (forall config uuid now endpointId input st st1 uuid' now' endpointId' input',
        submitJob config uuid now endpointId input no_options st
          = (inr (Queued uuid PENDING), st1) ->
        hashInput input' = hashInput input ->
        exists existing,
          submitJob config uuid' now' endpointId' input' no_options st1
            = (inr (Deduplicated existing), st1)
          /\ inr (Job.input_hash existing) = hashInput input).
Proof.
  split; [exact hashInput_prune|].
  split; [repeat split; try (vm_compute; reflexivity); discriminate|].
  split; [exact hashInput_length|].
  intros config uuid now endpointId input st st1 uuid' now' endpointId' input' Hfirst Heq.
  apply submitJob_Queued in Hfirst as (h & Hh & _ & _ & _ & Hdb & _).
  rewrite Hh in Heq.
  destruct (getJobByHash_is_Some h (database st1)
              (Job.Row uuid None (as_text endpointId) PENDING h input None None None None 0
                       None (seconds now) None None)) as [e He]; try done.
  { rewrite Hdb. simpl. apply elem_of_app. right. left. }
  exists e. split; [by eapply submitJob_duplicate|].
  apply getJobByHash_Some in He as (_ & -> & _). by rewrite Hh.
Qed.

Lemma hashInput_ignores_nested_members_witness :
  exists existing,
    submitJob default_config "job-2" 2000 ep1 nested_2 no_options after_nested_1
      = (inr (Deduplicated existing), after_nested_1).
Proof.
  destruct hashInput_ignores_nested_members as (_ & _ & _ & Hdedup).
  destruct (Hdedup default_config "job-1" 1000 ep1 nested_1 fresh after_nested_1
              "job-2" 2000 ep1 nested_2) as [e [He _]].
  - vm_compute. reflexivity.
  - vm_compute. reflexivity.
  - by exists e.
Defined.

(** ** Rounding to a double, between integers *)

























(** ** [getBackoffDelay] *)

Example backoff_at_the_upper_end :
  map (fun attempts => getBackoffDelay attempts below_one) [0; 1; 2; 3; 4; 5]
  = [2000; 3000; 5000; 9000; 17000; 33000]%float.
Proof. vm_compute. reflexivity. Qed.




(** ** [updateJob] and [getJob] *)

Lemma id_assign r a : Job.id (assign r a) = Job.id r.
Proof. by destruct r, a. Qed.

Lemma id_assigns r updates : Job.id (foldl assign r updates) = Job.id r.
Proof.
  revert r. induction updates as [|a updates IH]; intros r; simpl; [done|].
  by rewrite IH, id_assign.
Qed.

Lemma input_hash_assigns r updates :
  Job.input_hash (foldl assign r updates) = Job.input_hash r.
Proof.
  revert r. induction updates as [|a updates IH]; intros r; simpl; [done|].
  rewrite IH. by destruct r, a.
Qed.

Lemma has_id_true i r : has_id i r = true <-> Job.id r = i.
Proof. unfold has_id. apply String.eqb_eq. Qed.

Lemma getJob_Some i db r : getJob i db = Some r -> r ∈ jobs db /\ Job.id r = i.
Proof.
  unfold getJob. intros H. apply find_some in H as [Hin Hid].
  split; [by apply list_elem_of_In|by apply has_id_true].
Qed.

Lemma getJob_None i db r : getJob i db = None -> r ∈ jobs db -> Job.id r <> i.
Proof.
  unfold getJob. intros H Hin Hid.
  apply list_elem_of_In in Hin. pose proof (find_none _ _ H _ Hin) as Hn.
  apply has_id_true in Hid. congruence.
Qed.

Lemma getJob_updateJob i updates db :
  getJob i (updateJob i updates db) = (fun r => foldl assign r updates) <$> getJob i db.
Proof.
  unfold getJob, updateJob. simpl. induction (jobs db) as [|r l IH]; simpl; [done|].
  unfold update_row at 1. destruct (has_id i r) eqn:E.
  - assert (E' : has_id i (foldl assign r updates) = true)
      by (unfold has_id in *; by rewrite id_assigns).
    rewrite E'. unfold update_row. by rewrite E.
  - by rewrite E.
Qed.

Lemma updateJob_status_twice i s db :
  updateJob i [set_status s] (updateJob i [set_status s] db) = updateJob i [set_status s] db.
Proof.
  unfold updateJob, with_jobs. simpl. f_equal. rewrite map_map. apply map_ext.
  intros r. unfold update_row. destruct (has_id i r) eqn:E.
  - unfold has_id in *. simpl. rewrite id_assign, E. by destruct r.
  - by rewrite E.
Qed.

(** ** [cancelJob] *)

Lemma getJob_cancel_finish jobId st :
  getJob jobId (database (cancel_finish jobId st))
  = (fun r => assign r (set_status CANCELLED)) <$> getJob jobId (database st).
Proof. unfold cancel_finish. simpl. by rewrite getJob_updateJob. Qed.

Lemma cancelJob_Cancelled remote jobId st st1 :
  cancelJob remote jobId st = (Cancelled, st1) ->
  exists job,
    getJob jobId (database st) = Some job
    /\ getJob jobId (database st1) = Some (assign job (set_status CANCELLED))
    /\ needs_remote_cancel (assign job (set_status CANCELLED)) st1 = false.
Proof.
  unfold cancelJob. destruct (getJob jobId (database st)) as [job|] eqn:Hjob; [|done].
  pose proof (getJob_Some _ _ _ Hjob) as [_ Hid].
  destruct (needs_remote_cancel job st) eqn:Hneed.
  - destruct remote; [done|]. intros [= <-]. exists job. split; [done|].
    split.
    + rewrite getJob_cancel_finish. simpl. by rewrite Hjob.
    + unfold needs_remote_cancel. simpl. rewrite id_assign, Hid, lookup_delete_eq.
      rewrite bool_decide_eq_false_2; [apply andb_false_r|]. by intros [? ?].
  - intros [= <-]. exists job. split; [done|]. split.
    + rewrite getJob_cancel_finish. by rewrite Hjob.
    + unfold needs_remote_cancel in *. simpl. rewrite id_assign.
      by destruct job.
Qed.

(** C8: [cancelJob] fails as not found exactly when no row has the id; a
    call that fails leaves the state as it was;
    after a call that succeeded the row is CANCELLED, and a second call
    succeeds as well, leaves the database, the active jobs and the tokens
    as they were and only broadcasts [job:cancelled] once more, so the
    row is still CANCELLED. *)
Theorem cancelJob_not_found_and_idempotent :
  (forall remote jobId st,
     fst (cancelJob remote jobId st) = CancelNotFound <-> getJob jobId (database st) = None)
  /\ (forall remote jobId st,
        fst (cancelJob remote jobId st) <> Cancelled ->
        snd (cancelJob remote jobId st) = st)
  /\ (forall remote1 remote2 jobId st st1,
        cancelJob remote1 jobId st = (Cancelled, st1) ->
        (exists job, getJob jobId (database st1) = Some job /\ Job.status job = CANCELLED)
        /\ exists st2,
             cancelJob remote2 jobId st1 = (Cancelled, st2)
             /\ database st2 = database st1
             /\ activeJobs st2 = activeJobs st1
             /\ rateLimitTokens st2 = rateLimitTokens st1
             /\ isProcessing st2 = isProcessing st1
             /\ sent st2 = sent st1 ++ [job_cancelled jobId]
             /\ exists job, getJob jobId (database st2) = Some job
                            /\ Job.status job = CANCELLED).
Proof.
  split; [|split].
  - intros remote jobId st. unfold cancelJob.
    destruct (getJob jobId (database st)) as [job|]; [|done].
    split; [|done]. destruct (needs_remote_cancel job st); [|done]. by destruct remote.
  - intros remote jobId st. unfold cancelJob.
    destruct (getJob jobId (database st)) as [job|]; [|done].
    destruct (needs_remote_cancel job st); [destruct remote|]; done.
  - intros remote1 remote2 jobId st st1 Hfirst.
    pose proof Hfirst as Hst1.
    apply cancelJob_Cancelled in Hfirst as (job & Hjob & Hjob1 & Hneed).
    assert (Hdb : database st1 = updateJob jobId [set_status CANCELLED] (database st)).
    { unfold cancelJob in Hst1. rewrite Hjob in Hst1.
      destruct (needs_remote_cancel job st); [destruct remote1|]; by simplify_eq. }
    assert (Hstatus : Job.status (assign job (set_status CANCELLED)) = CANCELLED)
      by by destruct job.
    split; [by eexists|].
    exists (cancel_finish jobId st1). unfold cancelJob. rewrite Hjob1, Hneed.
    assert (Hsame : database (cancel_finish jobId st1) = database st1).
    { unfold cancel_finish. simpl. rewrite Hdb. apply updateJob_status_twice. }
    repeat split; try done.
    rewrite Hsame. by eexists.
Qed.

Lemma cancelJob_not_found_and_idempotent_witness :
  cancelJob None "job-1" one_active
    = (Cancelled, cancel_finish "job-1" (with_active (delete "job-1") one_active))
  /\ exists st2,
       cancelJob None "job-1" (cancel_finish "job-1" (with_active (delete "job-1") one_active))
         = (Cancelled, st2)
       /\ database st2
          = database (cancel_finish "job-1" (with_active (delete "job-1") one_active)).
Proof.
  assert (Hfirst : cancelJob None "job-1" one_active
    = (Cancelled, cancel_finish "job-1" (with_active (delete "job-1") one_active)))
    by (vm_compute; reflexivity).
  split; [exact Hfirst|].
  destruct cancelJob_not_found_and_idempotent as (_ & _ & Hidem).
  destruct (Hidem None None "job-1" one_active _ Hfirst) as [_ (st2 & H2 & Hdb & _)].
  exists st2. by split.
Defined.

(** ** Runs of the event loop *)

(** One case per turn of the event loop, the arguments named as in [Label]. *)
Ltac label_cases l :=
  destruct l as [uuid now ep input options | uuid now dlqId | jobId | jobId outcome | now
                | | | | k | k now rnd result | jobId | now status | entry | ].

Lemma run_invariant config ok (P : System -> Prop) :
  (forall l s s', P s -> ok l s = true -> step config l s = Some s' -> P s') ->
  forall ls s s', P s -> run config ok ls s = Some s' -> P s'.
Proof.
  intros Hstep ls. induction ls as [|l ls IH]; intros s s' Hs Hrun; simpl in Hrun.
  - by simplify_eq.
  - destruct (ok l s) eqn:Hok; [|done].
    destruct (step config l s) as [s1|] eqn:Hl; [|done]. eauto.
Qed.

Lemma reachable_by_invariant config ok (P : System -> Prop) :
  P (initial config) ->
  (forall l s s', P s -> ok l s = true -> step config l s = Some s' -> P s') ->
  forall s, reachable_by config ok s -> P s.
Proof. intros Hinit Hstep s [ls Hrun]. eapply run_invariant; eauto. Qed.

(** ** The token counter *)

Section Tokens.

Variable config : Config.

Lemma tokens_submitJob uuid now endpointId input options st :
  rateLimitTokens (snd (submitJob config uuid now endpointId input options st))
  = rateLimitTokens st.
Proof. unfold submitJob. by repeat case_match. Qed.

Lemma tokens_retryDeadLetter uuid now dlqId st :
  rateLimitTokens (snd (retryDeadLetter config uuid now dlqId st)) = rateLimitTokens st.
Proof. unfold retryDeadLetter. repeat case_match; try done; apply tokens_submitJob. Qed.

Lemma tokens_processJob_catch now rnd job message st :
  rateLimitTokens (processJob_catch config now rnd job message st) = rateLimitTokens st.
Proof. unfold processJob_catch. by repeat case_match. Qed.

Lemma tokens_pollActiveJobs_body now jobId info status st :
  rateLimitTokens (pollActiveJobs_body now jobId info status st) = rateLimitTokens st.
Proof. by destruct status. Qed.

Lemma acquireRateLimitToken_spec st :
  match acquireRateLimitToken st with
  | Some st' => 1 <= rateLimitTokens st /\ rateLimitTokens st' = rateLimitTokens st - 1
  | None => rateLimitTokens st < 1
  end.
Proof.
  unfold acquireRateLimitToken. destruct (rateLimitTokens st <? 1) eqn:E.
  - by apply Z.ltb_lt.
  - apply Z.ltb_ge in E. by split.
Qed.

Lemma tokens_start_jobs now pending st st' tasks :
  start_jobs now pending st = (st', tasks) ->
  tokens_in_range config st -> tokens_in_range config st'.
Proof.
  revert st st' tasks. induction pending as [|job rest IH]; intros st st' tasks; simpl.
  - by intros [= <- <-].
  - pose proof (acquireRateLimitToken_spec (processJob_begin now job st)) as Hacq.
    destruct (acquireRateLimitToken (processJob_begin now job st)) as [st1|];
      destruct (start_jobs now rest _) as [st3 tasks'] eqn:Hrest;
      intros [= <- <-] Hin; eapply IH; eauto.
    unfold tokens_in_range in *. simpl in *. lia.
Qed.

Hypothesis rate_nonneg : 0 <= rateLimitPerSecond config.

Lemma tokens_refill st :
  tokens_in_range config st -> rateLimitTokens (refill config st) = rateLimitPerSecond config.
Proof. unfold tokens_in_range, refill. simpl. lia. Qed.

Lemma tokens_step l s s' :
  tokens_in_range config (qm s) -> step config l s = Some s' -> tokens_in_range config (qm s').
Proof.
  intros Hin Hstep.
  label_cases l; simpl in Hstep.
  - simplify_eq. unfold tokens_in_range. simpl. by rewrite tokens_submitJob.
  - simplify_eq. unfold tokens_in_range. simpl. by rewrite tokens_retryDeadLetter.
  - repeat case_match; by simplify_eq.
  - repeat case_match; by simplify_eq.
  - destruct (isProcessing (qm s)); [by simplify_eq|].
    destruct (start_jobs _ _ _) as [st' tasks] eqn:Hstart. simplify_eq. simpl.
    by eapply tokens_start_jobs.
  - repeat case_match; by simplify_eq.
  - repeat case_match; by simplify_eq.
  - simplify_eq. pose proof (tokens_refill (qm s) Hin) as Hr.
    unfold tokens_in_range. cbn [qm with_qm]. rewrite Hr. lia.
  - destruct (loop s) as [|tasks|]; try done.
    destruct (tasks !! k) as [t|]; [|done]. destruct (task_token t); [done|].
    pose proof (acquireRateLimitToken_spec (qm s)) as Hacq.
    destruct (acquireRateLimitToken (qm s)) as [st'|]; simplify_eq; [|done].
    unfold tokens_in_range in *. simpl. lia.
  - destruct (loop s) as [|tasks|]; try done.
    destruct (tasks !! k) as [t|]; [|done]. destruct (task_token t); [|done].
    simplify_eq. unfold tokens_in_range. simpl.
    destruct result; [done|]. by rewrite tokens_processJob_catch.
  - repeat case_match; by simplify_eq.
  - repeat case_match; simplify_eq. unfold tokens_in_range. simpl.
    by rewrite tokens_pollActiveJobs_body.
  - by simplify_eq.
  - simplify_eq. unfold tokens_in_range. simpl. lia.
Qed.

Lemma tokens_reachable s : reachable config s -> tokens_in_range config (qm s).
Proof.
  apply (reachable_by_invariant config any_turn (fun s => tokens_in_range config (qm s))).
  - unfold tokens_in_range. simpl. lia.
  - intros l s0 s' H _. by apply tokens_step.
Qed.

End Tokens.

(** C5: when the configured rate N is not negative, the token counter
    stays within 0..N whatever the order of acquisitions, refills and the
    other turns of the event loop; an acquisition takes a token only from
    a counter that is at least 1 and takes exactly one; a refill sets the
    counter to N. *)
Theorem rateLimitTokens_within_capacity config :
  0 <= rateLimitPerSecond config ->
  (forall s, reachable config s ->
     0 <= rateLimitTokens (qm s) <= rateLimitPerSecond config)
  /\ (forall st,
        match acquireRateLimitToken st with
        | Some st' => 1 <= rateLimitTokens st /\ rateLimitTokens st' = rateLimitTokens st - 1
        | None => rateLimitTokens st < 1
        end)
  /\ (forall s, reachable config s ->
        rateLimitTokens (refill config (qm s)) = rateLimitPerSecond config).
Proof.
  intros Hrate. split; [|split].
  - intros s Hs. by apply tokens_reachable.
  - apply acquireRateLimitToken_spec.
  - intros s Hs. apply tokens_refill. by apply tokens_reachable.
Qed.

Lemma rateLimitTokens_within_capacity_witness :
  0 <= rateLimitTokens (qm dispatching_one) <= 2.
Proof.
  destruct (rateLimitTokens_within_capacity default_config) as [Hrange _].
  - vm_compute. discriminate.
  - apply (Hrange dispatching_one).
    exists [call_submitJob "job-1" 1000 (Some (JStr "ep1")) (JObj [("prompt", JStr "cat")])
              no_options;
            timer_tick 2000].
    vm_compute. reflexivity.
Defined.

(** ** The concurrency cap *)

Section Capacity.

Variable config : Config.

Lemma manager_submitJob uuid now endpointId input options st :
  activeJobs (snd (submitJob config uuid now endpointId input options st)) = activeJobs st
  /\ isProcessing (snd (submitJob config uuid now endpointId input options st))
     = isProcessing st.
Proof. unfold submitJob. by repeat case_match. Qed.

Lemma manager_retryDeadLetter uuid now dlqId st :
  activeJobs (snd (retryDeadLetter config uuid now dlqId st)) = activeJobs st
  /\ isProcessing (snd (retryDeadLetter config uuid now dlqId st)) = isProcessing st.
Proof. unfold retryDeadLetter. repeat case_match; try done; apply manager_submitJob. Qed.

Lemma manager_processJob_catch now rnd job message st :
  activeJobs (processJob_catch config now rnd job message st) = activeJobs st
  /\ isProcessing (processJob_catch config now rnd job message st) = isProcessing st.
Proof. unfold processJob_catch. by repeat case_match. Qed.




Lemma manager_start_jobs now pending st st' tasks :
  start_jobs now pending st = (st', tasks) ->
  activeJobs st' = activeJobs st /\ isProcessing st' = isProcessing st
  /\ map task_job tasks = pending.
Proof.
  revert st st' tasks. induction pending as [|job rest IH]; intros st st' tasks; simpl.
  - by intros [= <- <-].
  - unfold acquireRateLimitToken.
    destruct (rateLimitTokens (processJob_begin now job st) <? 1);
      destruct (start_jobs now rest _) as [st3 tasks'] eqn:Hrest;
      intros [= <- <-]; apply IH in Hrest as (-> & -> & <-); by repeat split.
Qed.


Hypothesis cap_nonneg : 0 <= maxConcurrentJobs config.



End Capacity.


Lemma elem_of_take_elem_of {A : Type} (x : A) n l : x ∈ take n l -> x ∈ l.
Proof. intros (i & Hi & _)%elem_of_take. by eapply list_elem_of_lookup_2. Qed.





(** ** Rows under [updateJob] *)

Lemma status_assigns r updates :
  Job.status (foldl assign r updates) = status_after updates (Job.status r).
Proof.
  unfold status_after. revert r.
  induction updates as [|a updates IH]; intros r; simpl; [done|].
  rewrite IH. by destruct r, a.
Qed.

Lemma handle_assigns r updates :
  Job.runpod_job_id (foldl assign r updates) = handle_after updates (Job.runpod_job_id r).
Proof.
  unfold handle_after. revert r.
  induction updates as [|a updates IH]; intros r; simpl; [done|].
  rewrite IH. by destruct r, a.
Qed.

Lemma handle_after_is_Some updates h : is_Some h -> is_Some (handle_after updates h).
Proof.
  unfold handle_after. revert h.
  induction updates as [|a updates IH]; intros h Hh; simpl; [done|].
  apply IH. by destruct a.
Qed.

Lemma update_row_same i updates r :
  Job.id r = i -> update_row i updates r = foldl assign r updates.
Proof. intros Hid. unfold update_row. apply has_id_true in Hid. by rewrite Hid. Qed.

Lemma update_row_other i updates r : Job.id r <> i -> update_row i updates r = r.
Proof.
  intros Hid. unfold update_row. destruct (has_id i r) eqn:E; [|done].
  by apply has_id_true in E.
Qed.

Lemma id_update_row i updates r : Job.id (update_row i updates r) = Job.id r.
Proof. unfold update_row. destruct (has_id i r); [apply id_assigns|done]. Qed.

Lemma input_hash_update_row i updates r :
  Job.input_hash (update_row i updates r) = Job.input_hash r.
Proof. unfold update_row. destruct (has_id i r); [apply input_hash_assigns|done]. Qed.

Lemma map_id_update_row i updates rows :
  map Job.id (map (update_row i updates) rows) = map Job.id rows.
Proof. rewrite map_map. apply map_ext. intros r. apply id_update_row. Qed.

Lemma elem_of_map_update_row i updates rows r' :
  r' ∈ map (update_row i updates) rows ->
  exists r, r ∈ rows /\ r' = update_row i updates r.
Proof. intros (r & -> & Hr)%list_elem_of_fmap. eauto. Qed.

Lemma elem_of_map_update_row_2 i updates rows r :
  r ∈ rows -> update_row i updates r ∈ map (update_row i updates) rows.
Proof. intros Hr. apply list_elem_of_fmap. eauto. Qed.

Lemma NoDup_ids_eq rows r1 r2 :
  NoDup (map Job.id rows) -> r1 ∈ rows -> r2 ∈ rows -> Job.id r1 = Job.id r2 -> r1 = r2.
Proof.
  induction rows as [|r rows IH]; simpl; [by intros _ ?%not_elem_of_nil|].
  intros [Hnotin Hnd]%NoDup_cons [->|H1]%elem_of_cons [->|H2]%elem_of_cons Hid; auto.
  - exfalso. apply Hnotin. rewrite Hid. by apply list_elem_of_fmap_2.
  - exfalso. apply Hnotin. rewrite <- Hid. by apply list_elem_of_fmap_2.
Qed.

Lemma length_filter_map_le {A : Type} (P : A -> Prop) `{Hdec : forall x, Decision (P x)}
    (f : A -> A) (l : list A) :
  (forall x, x ∈ l -> P (f x) -> P x) ->
  (length (filter P (map f l)) <= length (filter P l))%nat.
Proof.
  induction l as [|x l IH]; intros Himpl; simpl; [done|].
  assert (IH' : (length (filter P (map f l)) <= length (filter P l))%nat).
  { apply IH. intros y Hy. apply Himpl. by right. }
  rewrite !filter_cons.
  destruct (decide (P (f x))) as [Hfx|Hfx].
  - rewrite decide_True by (apply Himpl; [left|done]). simpl. lia.
  - destruct (decide (P x)); simpl; lia.
Qed.

Lemma live_with_hash_spec h r :
  live_with_hash h r <-> Job.input_hash r = h /\ non_terminal (Job.status r) = true.
Proof.
  unfold live_with_hash. rewrite andb_True, Is_true_true, String.eqb_eq.
  by rewrite Is_true_true.
Qed.

(** An update of the rows with id [i] keeps the store in order when it
    does not revive a row and leaves no undispatched row with a handle. *)
Lemma store_ok_update i updates rows :
  store_ok rows ->
  (forall r, r ∈ rows -> Job.id r = i ->
     non_terminal (status_after updates (Job.status r)) = true ->
     non_terminal (Job.status r) = true) ->
  (forall r, r ∈ rows -> Job.id r = i ->
     undispatched (status_after updates (Job.status r)) = true ->
     handle_after updates (Job.runpod_job_id r) = None) ->
  store_ok (map (update_row i updates) rows).
Proof.
  intros [Hids Hund Hlive] Hrevive Hhandle. split.
  - by rewrite map_id_update_row.
  - intros r' (r & Hr & ->)%elem_of_map_update_row.
    destruct (decide (Job.id r = i)) as [Hid|Hid].
    + rewrite update_row_same by done. rewrite status_assigns, handle_assigns. eauto.
    + rewrite update_row_other by done. eauto.
  - intros h. etransitivity; [|apply (Hlive h)].
    apply (length_filter_map_le (fun r => live_with_hash h r)).
    intros r Hr. rewrite !live_with_hash_spec. rewrite input_hash_update_row.
    intros [Hh Hnt]. split; [done|].
    destruct (decide (Job.id r = i)) as [Hid|Hid].
    + rewrite update_row_same, status_assigns in Hnt by done. eauto.
    + by rewrite update_row_other in Hnt.
Qed.

Lemma running_update i updates rows j :
  j <> i \/ (forall s, status_after updates s = RUNNING) ->
  (exists r, r ∈ rows /\ Job.id r = j /\ Job.status r = RUNNING) ->
  exists r, r ∈ map (update_row i updates) rows /\ Job.id r = j /\ Job.status r = RUNNING.
Proof.
  intros Hcase (r & Hr & Hid & Hst). exists (update_row i updates r).
  split; [by apply elem_of_map_update_row_2|]. split; [by rewrite id_update_row|].
  destruct (decide (Job.id r = i)) as [Hi|Hi].
  - destruct Hcase as [Hne|Hrun]; [congruence|].
    by rewrite update_row_same, status_assigns.
  - by rewrite update_row_other.
Qed.

Lemma handle_update i updates rows j :
  (exists r, r ∈ rows /\ Job.id r = j /\ is_Some (Job.runpod_job_id r)) ->
  exists r, r ∈ map (update_row i updates) rows /\ Job.id r = j
            /\ is_Some (Job.runpod_job_id r).
Proof.
  intros (r & Hr & Hid & Hh). exists (update_row i updates r).
  split; [by apply elem_of_map_update_row_2|]. split; [by rewrite id_update_row|].
  unfold update_row. destruct (has_id i r); [|done].
  rewrite handle_assigns. by apply handle_after_is_Some.
Qed.

Lemma started_update i updates rows :
  (forall s, status_after updates s = RUNNING) ->
  (exists r, r ∈ rows /\ Job.id r = i) ->
  exists r, r ∈ map (update_row i updates) rows /\ Job.id r = i /\ Job.status r = RUNNING.
Proof.
  intros Hrun (r & Hr & Hid). exists (update_row i updates r).
  split; [by apply elem_of_map_update_row_2|]. split; [by rewrite id_update_row|].
  by rewrite update_row_same, status_assigns.
Qed.

(** ** The store under the operations *)

Lemma filter_none {A : Type} (P : A -> Prop) `{Hdec : forall x, Decision (P x)} (l : list A) :
  Forall (fun x => ~ P x) l -> filter P l = [].
Proof.
  induction 1 as [|x l Hx Hl IH]; [done|]. by rewrite filter_cons, decide_False.
Qed.

Lemma jobs_submitJob config uuid now endpointId input options st :
  let st' := snd (submitJob config uuid now endpointId input options st) in
  jobs (database st') = jobs (database st)
  \/ exists h,
       hashInput input = inr h
       /\ (default false (skipDeduplication options) = true
           \/ getJobByHash h (database st) = None)
       /\ existsb (has_id uuid) (jobs (database st)) = false
       /\ jobs (database st')
          = jobs (database st) ++
            [Job.Row uuid None (as_text endpointId) PENDING h input None None None None 0
                     None (seconds now) None None].
Proof.
  simpl. unfold submitJob. destruct (hashInput input) as [e|h]; [by left|].
  destruct (default false (skipDeduplication options)) eqn:Hskip; simpl.
  - destruct (_ <=? _); [by left|]. unfold createJob. simpl.
    destruct (existsb _ _) eqn:Hex; [by left|]. right. exists h. simpl. auto.
  - destruct (getJobByHash h (database st)) eqn:Hget; [by left|].
    destruct (_ <=? _); [by left|]. unfold createJob. simpl.
    destruct (existsb _ _) eqn:Hex; [by left|]. right. exists h. simpl. auto.
Qed.

Lemma non_terminal_dedup_status s : non_terminal s = true -> dedup_status s = true.
Proof. by destruct s. Qed.

Lemma existsb_has_id_false i rows : existsb (has_id i) rows = false -> i ∉ map Job.id rows.
Proof.
  intros Hex (r & -> & Hr)%list_elem_of_fmap.
  assert (Hyes : existsb (has_id (Job.id r)) rows = true).
  { apply existsb_exists. exists r. split; [by apply list_elem_of_In|by apply has_id_true]. }
  congruence.
Qed.

(** A row appended by a submission that looked for duplicates keeps the
    store in order. *)
Lemma store_ok_append rows db uuid ep h input t :
  jobs db = rows ->
  store_ok rows ->
  getJobByHash h db = None ->
  existsb (has_id uuid) rows = false ->
  store_ok (rows ++ [Job.Row uuid None ep PENDING h input None None None None 0 None t
                             None None]).
Proof.
  intros Hrows [Hids Hund Hlive] Hget Hex. split.
  - rewrite map_app. simpl. apply NoDup_app. split; [done|]. split; [|apply NoDup_singleton].
    intros i Hi ->%list_elem_of_singleton. by apply existsb_has_id_false in Hex.
  - intros r [Hr| ->%list_elem_of_singleton]%elem_of_app; [eauto|done].
  - intros h'. rewrite filter_app, length_app.
    destruct (decide (h' = h)) as [->|Hne].
    + assert (Hnone : filter (fun r => live_with_hash h r) rows = []).
      { apply filter_none. apply Forall_forall. intros r Hr.
        rewrite live_with_hash_spec. intros [Hh Hnt].
        apply non_terminal_dedup_status in Hnt.
        rewrite <- Hrows in Hr. pose proof (getJobByHash_None _ _ _ Hget Hr Hh). congruence. }
      rewrite Hnone. simpl. rewrite filter_cons. case_decide; simpl; lia.
    + rewrite filter_cons, decide_False.
      * simpl. pose proof (Hlive h'). lia.
      * rewrite live_with_hash_spec. simpl. intros [? _]. congruence.
Qed.

Lemma store_ok_submitJob config uuid now endpointId input options st :
  default false (skipDeduplication options) = false ->
  store_ok (jobs (database st)) ->
  store_ok (jobs (database (snd (submitJob config uuid now endpointId input options st))))
  /\ forall r, r ∈ jobs (database st) ->
       r ∈ jobs (database (snd (submitJob config uuid now endpointId input options st))).
Proof.
  intros Hskip Hok.
  destruct (jobs_submitJob config uuid now endpointId input options st)
    as [Hsame|(h & Hh & Hnodup & Hex & Happ)].
  - simpl in Hsame. by rewrite Hsame.
  - simpl in Happ. rewrite Happ. split.
    + destruct Hnodup as [Hs|Hget]; [congruence|]. by eapply store_ok_append.
    + intros r Hr. apply elem_of_app. by left.
Qed.

(** The rows [getPendingJobs] returns have distinct ids when the table has. *)
Lemma getPendingJobs_NoDup limit db :
  NoDup (map Job.id (jobs db)) -> NoDup (map Job.id (getPendingJobs limit db)).
Proof.
  intros Hnd. unfold getPendingJobs.
  assert (Hsorted : NoDup (map Job.id
            (order_by created_asc (filter (fun r => is_pending r) (jobs db))))).
  { rewrite (order_by_perm created_asc).
    eapply sublist_NoDup; [exact Hnd|]. apply fmap_sublist, sublist_filter. }
  unfold sql_limit. destruct (limit <? 0); [done|].
  eapply sublist_NoDup; [exact Hsorted|]. apply fmap_sublist, sublist_take.
Qed.

Lemma getPendingJobs_pending limit db job :
  job ∈ getPendingJobs limit db -> job ∈ jobs db /\ Job.status job = PENDING.
Proof.
  unfold getPendingJobs. intros Hin.
  assert (Hsorted : job ∈ order_by created_asc (filter (fun r => is_pending r) (jobs db))).
  { unfold sql_limit in Hin. destruct (limit <? 0); [done|]. by eapply elem_of_take_elem_of. }
  rewrite (order_by_perm created_asc) in Hsorted.
  apply list_elem_of_filter in Hsorted as [Hp Hjob]. split; [done|].
  unfold is_pending in Hp. by apply bool_decide_unpack in Hp.
Qed.

Lemma jobs_processJob_begin now job st :
  jobs (database (processJob_begin now job st))
  = map (update_row (Job.id job)
           [set_status RUNNING; set_started_at now; set_attempts (Job.attempts job + 1)])
        (jobs (database st)).
Proof. reflexivity. Qed.

Lemma jobs_acquire st st' :
  acquireRateLimitToken st = Some st' -> database st' = database st.
Proof. unfold acquireRateLimitToken. destruct (_ <? _); [done|]. by intros [= <-]. Qed.

(** The start of the dispatches of a tick: the store stays in order, what
    was RUNNING or had a handle still is and has, and every fetched row
    is now RUNNING. *)
Lemma start_jobs_safe now pending st st' tasks :
  start_jobs now pending st = (st', tasks) ->
  store_ok (jobs (database st)) ->
  (forall job r, job ∈ pending -> r ∈ jobs (database st) -> Job.id r = Job.id job ->
     undispatched (Job.status r) = true) ->
  store_ok (jobs (database st'))
  /\ (forall j, (exists r, r ∈ jobs (database st) /\ Job.id r = j
                           /\ is_Some (Job.runpod_job_id r)) ->
        exists r, r ∈ jobs (database st') /\ Job.id r = j /\ is_Some (Job.runpod_job_id r))
  /\ (forall j, (exists r, r ∈ jobs (database st) /\ Job.id r = j
                           /\ Job.status r = RUNNING) ->
        exists r, r ∈ jobs (database st') /\ Job.id r = j /\ Job.status r = RUNNING)
  /\ (forall job, job ∈ pending ->
        (exists r, r ∈ jobs (database st) /\ Job.id r = Job.id job) ->
        exists r, r ∈ jobs (database st') /\ Job.id r = Job.id job
                  /\ Job.status r = RUNNING).
Proof.
  revert st st' tasks. induction pending as [|job rest IH]; intros st st' tasks; simpl.
  - intros [= <- <-] Hok _. split; [done|]. split; [done|]. split; [done|].
    by intros job ?%not_elem_of_nil.
  - set (st1 := processJob_begin now job st).
    intros Hstart Hok Hpre.
    assert (Hdb2 : exists st2, database st2 = database st1 /\
              exists tasks', start_jobs now rest st2 = (st', tasks')).
    { destruct (acquireRateLimitToken st1) as [st2|] eqn:Hacq;
        destruct (start_jobs now rest _) as [st3 tasks'] eqn:Hrest; simplify_eq.
      - exists st2. split; [by eapply jobs_acquire|by eexists].
      - exists st1. split; [done|by eexists]. }
    destruct Hdb2 as (st2 & Hdb & tasks' & Hrest).
    assert (Hrun : forall s, status_after
              [set_status RUNNING; set_started_at now; set_attempts (Job.attempts job + 1)] s
              = RUNNING) by done.
    assert (Hok1 : store_ok (jobs (database st1))).
    { unfold st1. rewrite jobs_processJob_begin. apply store_ok_update; [done|..].
      - intros r Hr Hid _.
        assert (undispatched (Job.status r) = true) by (eapply Hpre; [left|done..]).
        by destruct (Job.status r).
      - intros r Hr Hid _. simpl. apply Hok; [done|]. eapply Hpre; [left|done..]. }
    assert (Hpre1 : forall job' r, job' ∈ rest -> r ∈ jobs (database st2) ->
              Job.id r = Job.id job' -> undispatched (Job.status r) = true).
    { rewrite Hdb. unfold st1. rewrite jobs_processJob_begin.
      intros job' r' Hjob' (r & Hr & ->)%elem_of_map_update_row Hid.
      rewrite id_update_row in Hid.
      destruct (decide (Job.id r = Job.id job)) as [Hi|Hi].
      - by rewrite update_row_same, status_assigns.
      - rewrite update_row_other by done. eapply Hpre; [by right|done..]. }
    rewrite <- Hdb in Hok1.
    destruct (IH st2 st' tasks' Hrest Hok1 Hpre1) as (Hok' & Hhandle & Hrunning & Hstarted).
    split; [done|]. split; [|split].
    + intros j Hj. apply Hhandle. rewrite Hdb. unfold st1.
      rewrite jobs_processJob_begin. by apply handle_update.
    + intros j Hj. apply Hrunning. rewrite Hdb. unfold st1.
      rewrite jobs_processJob_begin. apply running_update; [by right|done].
    + intros job' [->|Hjob']%elem_of_cons Hex.
      * apply Hrunning. rewrite Hdb. unfold st1. rewrite jobs_processJob_begin.
        by apply started_update.
      * apply Hstarted; [done|]. rewrite Hdb. unfold st1. rewrite jobs_processJob_begin.
        destruct Hex as (r & Hr & Hid). exists (update_row (Job.id job)
          [set_status RUNNING; set_started_at now; set_attempts (Job.attempts job + 1)] r).
        split; [by apply elem_of_map_update_row_2|]. by rewrite id_update_row.
Qed.

Lemma jobs_processJob_queued startTime job rid st :
  jobs (database (processJob_queued startTime job rid st))
  = map (update_row (Job.id job) [set_runpod_job_id rid; set_status IN_QUEUE])
        (jobs (database st)).
Proof. reflexivity. Qed.

Lemma jobs_processJob_catch config now rnd job message st :
  jobs (database (processJob_catch config now rnd job message st))
  = map (update_row (Job.id job)
           (if maxRetryAttempts config <=? Job.attempts job + 1
            then [set_status FAILED; set_error message; set_attempts (Job.attempts job + 1)]
            else [set_status PENDING; set_error message;
                  set_attempts (Job.attempts job + 1)]))
        (jobs (database st)).
Proof.
  unfold processJob_catch. destruct (_ <=? _); [|done].
  unfold addToDeadLetter. by destruct (existsb _ _).
Qed.

Lemma jobs_pollActiveJobs_body now jobId info status st :
  jobs (database (pollActiveJobs_body now jobId info status st)) = jobs (database st)
  \/ exists updates,
       (forall s, non_terminal (status_after updates s) = false)
       /\ jobs (database (pollActiveJobs_body now jobId info status st))
          = map (update_row jobId updates) (jobs (database st)).
Proof.
  destruct status as [output|error| |m]; [right|right|by left|by left].
  - by exists [set_status COMPLETED; set_output output;
               set_duration_ms (now - startTime info); set_completed_at now].
  - by exists [set_status FAILED; set_error (error_or_default error); set_completed_at now].
Qed.

Lemma store_ok_terminal i updates rows :
  (forall s, non_terminal (status_after updates s) = false) ->
  store_ok rows -> store_ok (map (update_row i updates) rows).
Proof.
  intros Hterm Hok. apply store_ok_update; [done|..].
  - intros r _ _. by rewrite Hterm.
  - intros r _ _ Hund. specialize (Hterm (Job.status r)).
    by destruct (status_after updates (Job.status r)).
Qed.

Lemma elem_of_remove_first x j l : x ∈ remove_first j l -> x ∈ l.
Proof.
  induction l as [|y l IH]; simpl; [done|].
  destruct (String.eqb y j); [by right|].
  intros [->|H]%elem_of_cons; [left|right; auto].
Qed.

Lemma elem_of_delete_NoDup {A : Type} (l : list A) k x y :
  NoDup l -> l !! k = Some x -> y ∈ delete k l -> y ∈ l /\ y <> x.
Proof.
  revert k. induction l as [|z l IH]; intros k Hnd Hk Hy; [done|].
  apply NoDup_cons in Hnd as [Hz Hnd]. destruct k as [|k]; simpl in *.
  - simplify_eq. split; [by right|]. by intros ->.
  - apply elem_of_cons in Hy as [->|Hy].
    + split; [left|]. intros ->. apply Hz. by eapply list_elem_of_lookup_2.
    + destruct (IH k Hnd Hk Hy) as [? ?]. split; [by right|done].
Qed.

Section Deduplication.

Variable config : Config.

Lemma task_rows_running s i r :
  dedup_safe s -> i ∈ in_flight s -> r ∈ jobs (database (qm s)) -> Job.id r = i ->
  Job.status r = RUNNING.
Proof.
  intros [[Hids _ _] _ Hrun _] Hi Hr Hid.
  destruct (Hrun i Hi) as (r' & Hr' & Hid' & Hst).
  by rewrite (NoDup_ids_eq _ r r' Hids Hr Hr') by congruence.
Qed.

Lemma cancelling_not_in_flight s j :
  dedup_safe s -> j ∈ cancelling s -> j ∉ in_flight s.
Proof.
  intros Hsafe Hj Hin. destruct (safe_cancelling s Hsafe j Hj) as (r & Hr & Hid & Hh).
  pose proof (task_rows_running s j r Hsafe Hin Hr Hid) as Hst.
  assert (Hnone : Job.runpod_job_id r = None).
  { apply (undispatched_no_handle _ (safe_store s Hsafe)); [done|]. by rewrite Hst. }
  rewrite Hnone in Hh. by destruct Hh.
Qed.

(** An update of rows that are not in flight, to a terminal status. *)
Lemma dedup_safe_terminal s s' i updates :
  dedup_safe s ->
  i ∉ in_flight s ->
  (forall s, non_terminal (status_after updates s) = false) ->
  jobs (database (qm s')) = map (update_row i updates) (jobs (database (qm s))) ->
  in_flight s' = in_flight s ->
  (forall j, j ∈ cancelling s' -> j ∈ cancelling s) ->
  dedup_safe s'.
Proof.
  intros Hsafe Hi Hterm Hjobs Hfl Hsub.
  destruct Hsafe as [Hok Hnd Hrun Hcan]. split; rewrite ?Hjobs, ?Hfl.
  - by apply store_ok_terminal.
  - done.
  - intros j Hj. apply running_update; [left; by intros ->|]. by apply Hrun.
  - intros j Hj. apply handle_update. by apply Hcan, Hsub.
Qed.

(** A change of the manager that leaves the rows, the loop and the
    pending cancellations alone. *)
Lemma dedup_safe_same_rows s s' :
  dedup_safe s ->
  jobs (database (qm s')) = jobs (database (qm s)) ->
  in_flight s' = in_flight s ->
  (forall j, j ∈ cancelling s' -> j ∈ cancelling s) ->
  dedup_safe s'.
Proof.
  intros [Hok Hnd Hrun Hcan] Hjobs Hfl Hsub. split; rewrite ?Hjobs, ?Hfl; auto.
Qed.

Lemma dedup_step l s s' :
  dedup_safe s -> keeps_deduplication l s = true -> step config l s = Some s' ->
  dedup_safe s'.
Proof.
  intros Hsafe Hok Hstep.
  label_cases l; simpl in Hstep, Hok.
  - simplify_eq. apply negb_true_iff in Hok.
    destruct (store_ok_submitJob config uuid now ep input options (qm s) Hok
                (safe_store s Hsafe)) as [Hstore Hkeep].
    destruct Hsafe as [_ Hnd Hrun Hcan]. split; simpl; [done|done|..].
    + intros i Hi. destruct (Hrun i Hi) as (r & Hr & Hrest). exists r. auto.
    + intros j Hj. destruct (Hcan j Hj) as (r & Hr & Hrest). exists r. auto.
  - done.
  - apply bool_decide_eq_true in Hok.
    destruct (getJob jobId (database (qm s))) as [job|] eqn:Hjob; [|by simplify_eq].
    destruct (needs_remote_cancel job (qm s)) eqn:Hneed; simplify_eq.
    + destruct Hsafe as [Hstore Hnd Hrun Hcan]. split; simpl; [done..|].
      intros j [->|Hj]%elem_of_cons; [|auto].
      apply getJob_Some in Hjob as [Hin Hid]. exists job. split; [done|]. split; [done|].
      unfold needs_remote_cancel in Hneed. apply andb_true_iff in Hneed as [Ht _].
      unfold truthy in Ht. destruct (Job.runpod_job_id job); [by eexists|done].
    + by apply (dedup_safe_terminal s _ jobId [set_status CANCELLED]).
  - case_bool_decide as Hin; [|done]. simplify_eq. destruct outcome as [m|].
    + apply (dedup_safe_same_rows s); try done. simpl. intros j. apply elem_of_remove_first.
    + apply (dedup_safe_terminal s _ jobId [set_status CANCELLED]); try done.
      * by apply cancelling_not_in_flight.
      * simpl. intros j. apply elem_of_remove_first.
  - destruct (isProcessing (qm s)); [by simplify_eq|].
    destruct (start_jobs _ _ _) as [st' tasks] eqn:Hstart. simplify_eq.
    pose proof (manager_start_jobs _ _ _ _ _ Hstart) as (_ & _ & Htasks).
    pose proof (safe_store s Hsafe) as Hstore.
    assert (Hfetched : forall job, job ∈ tick_fetch config (with_processing true (qm s)) ->
              job ∈ jobs (database (qm s)) /\ Job.status job = PENDING).
    { intros job Hjob. by apply getPendingJobs_pending in Hjob. }
    apply start_jobs_safe in Hstart as (Hok' & Hhandle & _ & Hstarted); [|done|].
    + split; simpl; [done|..].
      * unfold in_flight. simpl. rewrite <- (map_map task_job Job.id), Htasks.
        apply getPendingJobs_NoDup. apply Hstore.
      * unfold in_flight. simpl. rewrite <- (map_map task_job Job.id), Htasks.
        intros i (job & -> & Hjob)%list_elem_of_fmap. apply Hstarted; [done|].
        exists job. split; [by apply Hfetched|done].
      * intros j Hj. apply Hhandle. by apply (safe_cancelling s Hsafe).
    + intros job r Hjob Hr Hid. apply Hfetched in Hjob as [Hjob Hst]. simpl in Hr.
      rewrite (NoDup_ids_eq _ r job (ids_unique _ Hstore) Hr Hjob Hid). by rewrite Hst.
  - destruct (loop s) as [|[|t tasks]|] eqn:Hloop; try done. simplify_eq.
    apply (dedup_safe_same_rows s); try done. unfold in_flight. simpl. by rewrite Hloop.
  - destruct (loop s) as [| |[cur|] [|j rest]] eqn:Hloop; try done. simplify_eq.
    apply (dedup_safe_same_rows s); try done. unfold in_flight. simpl. by rewrite Hloop.
  - simplify_eq. by apply (dedup_safe_same_rows s).
  - destruct (loop s) as [|tasks|] eqn:Hloop; try done.
    destruct (tasks !! k) as [t|] eqn:Hk; [|done]. destruct (task_token t); [done|].
    unfold acquireRateLimitToken in Hstep.
    destruct (rateLimitTokens (qm s) <? 1); simplify_eq; [done|].
    apply (dedup_safe_same_rows s); try done. unfold in_flight. simpl. rewrite Hloop. simpl.
    rewrite list_fmap_insert. simpl. apply list_insert_id.
    by rewrite list_lookup_fmap, Hk.
  - destruct (loop s) as [|tasks|] eqn:Hloop; try done.
    destruct (tasks !! k) as [t|] eqn:Hk; [|done]. destruct (task_token t); [|done].
    simplify_eq.
    assert (Hfl : in_flight s = map (fun t => Job.id (task_job t)) tasks)
      by (unfold in_flight; by rewrite Hloop).
    assert (Hik : in_flight s !! k = Some (Job.id (task_job t)))
      by (by rewrite Hfl, list_lookup_fmap, Hk).
    assert (Hi : Job.id (task_job t) ∈ in_flight s) by (by eapply list_elem_of_lookup_2).
    assert (Hrunning : forall r, r ∈ jobs (database (qm s)) ->
              Job.id r = Job.id (task_job t) -> Job.status r = RUNNING)
      by (intros r; by apply task_rows_running).
    destruct Hsafe as [Hstore Hnd Hrun Hcan].
    assert (Hjobs : exists updates,
              jobs (database (match result with
                              | RunOk rid =>
                                  processJob_queued (task_start t) (task_job t) rid (qm s)
                              | RunThrows m =>
                                  processJob_catch config now rnd (task_job t) m (qm s)
                              end))
              = map (update_row (Job.id (task_job t)) updates) (jobs (database (qm s)))
              /\ forall h s0, undispatched (status_after updates s0) = true ->
                              handle_after updates h = h).
    { destruct result as [rid|m].
      - eexists. split; [apply jobs_processJob_queued|]. done.
      - eexists. split; [apply jobs_processJob_catch|]. by destruct (_ <=? _). }
    destruct Hjobs as (updates & Hjobs & Hhandle).
    split; simpl; rewrite ?Hjobs.
    + apply store_ok_update; [done|..].
      * intros r Hr Hid _. by rewrite (Hrunning r Hr Hid).
      * intros r Hr Hid Hund. rewrite (Hhandle _ _ Hund).
        apply (undispatched_no_handle _ Hstore); [done|]. by rewrite (Hrunning r Hr Hid).
    + unfold in_flight at 1. simpl.
      replace (map (fun t => Job.id (task_job t)) (delete k tasks))
        with (delete k (in_flight s)) by (rewrite Hfl; symmetry; apply list_fmap_delete).
      eapply sublist_NoDup; [exact Hnd|apply sublist_delete].
    + unfold in_flight at 1. simpl.
      replace (map (fun t => Job.id (task_job t)) (delete k tasks))
        with (delete k (in_flight s)) by (rewrite Hfl; symmetry; apply list_fmap_delete).
      intros j Hj.
      destruct (elem_of_delete_NoDup _ _ _ _ Hnd Hik Hj) as [Hj' Hne].
      apply running_update; [by left|]. by apply Hrun.
    + intros j Hj. apply handle_update. by apply Hcan.
  - destruct (loop s) as [| |[cur|] rest] eqn:Hloop; try done.
    case_bool_decide; [|done]. simplify_eq.
    apply (dedup_safe_same_rows s); try done. unfold in_flight. simpl. by rewrite Hloop.
  - destruct (loop s) as [| |[[jobId info]|] rest] eqn:Hloop; try done. simplify_eq.
    assert (Hfl : in_flight s = []) by (unfold in_flight; by rewrite Hloop).
    destruct (jobs_pollActiveJobs_body now jobId info status (qm s))
      as [Hsame|(updates & Hterm & Hjobs)].
    + apply (dedup_safe_same_rows s); try done.
    + apply (dedup_safe_terminal s _ jobId updates); try done.
      rewrite Hfl. apply not_elem_of_nil.
  - simplify_eq. by apply (dedup_safe_same_rows s).
  - simplify_eq. destruct Hsafe as [Hstore _ _ _]. split; simpl; [done|..].
    + apply NoDup_nil_2.
    + by intros i ?%not_elem_of_nil.
    + by intros j ?%not_elem_of_nil.
Qed.

Lemma dedup_safe_initial : dedup_safe (initial config).
Proof.
  split; simpl.
  - split; simpl; [apply NoDup_nil_2|by intros r ?%not_elem_of_nil|intros h; simpl; lia].
  - apply NoDup_nil_2.
  - by intros i ?%not_elem_of_nil.
  - by intros j ?%not_elem_of_nil.
Qed.

End Deduplication.

(** C6: a submission that skips deduplication puts a second PENDING row
    with the same hash next to the first: the invariant does not hold in
    every reachable state. *)
Lemma skipped_deduplication_duplicates_live_jobs :
  ~ (forall config s, reachable config s -> one_live_job_per_hash (database (qm s))).
Proof.
  intros Hall.
  destruct (run default_config any_turn resubmitted (initial default_config)) as [s|] eqn:E;
    [|vm_compute in E; discriminate].
  pose proof (Hall default_config s (ex_intro _ resubmitted E) "67c3aa923cd483dc") as Hone.
  vm_compute in E. injection E as <-. vm_compute in Hone. lia.
Qed.

(** The same happens without any bypass when a job is cancelled while its
    dispatch is in flight: the answer of the backend puts the row back
    into IN_QUEUE next to the row that was submitted in between. *)
Lemma cancel_in_flight_duplicates_live_jobs :
  exists s, run default_config any_turn cancelled_in_flight (initial default_config) = Some s
    /\ map (fun r => (Job.id r, Job.input_hash r, Job.status r)) (jobs (database (qm s)))
       = [("job-1", "67c3aa923cd483dc", IN_QUEUE); ("job-2", "67c3aa923cd483dc", PENDING)].
Proof. eexists. split; vm_compute; reflexivity. Qed.

(** C6, amended: in every state reached by turns none of which bypasses
    deduplication (a submission with skipDeduplication, a dead-letter
    retry) or cancels a job whose dispatch is in flight, at most one row
    per input hash is PENDING, RUNNING or IN_QUEUE. *)
Theorem one_live_job_per_hash_when_deduplication_kept config s :
  reachable_by config keeps_deduplication s -> one_live_job_per_hash (database (qm s)).
Proof.
  intros Hs h. apply live_unique, safe_store. revert s Hs.
  apply reachable_by_invariant; [apply dedup_safe_initial|].
  intros l s s' Hsafe Hok Hstep. by eapply dedup_step.
Qed.

Lemma one_live_job_per_hash_when_deduplication_kept_witness :
  one_live_job_per_hash (database (qm dispatching_one)).
Proof.
  apply (one_live_job_per_hash_when_deduplication_kept default_config).
  exists [call_submitJob "job-1" 1000 (Some (JStr "ep1")) (JObj [("prompt", JStr "cat")])
            no_options;
          timer_tick 2000].
  vm_compute. reflexivity.
Defined.

(** ** Dead letters *)

Lemma row_object_has_no_endpointId r : get_prop "endpointId" (row_object r) = None.
Proof. reflexivity. Qed.

Lemma row_object_attempts r : get_prop "attempts" (row_object r) = Some (JNum (Job.attempts r)).
Proof. reflexivity. Qed.

(** What the [catch] block writes when the attempts are used up: the row
    gets the incremented count, the dead letter the count of the row as
    fetched, and no endpoint. *)
Lemma processJob_catch_dead_letter config now rnd job message st :
  maxRetryAttempts config <= Job.attempts job + 1 ->
  existsb (fun d => String.eqb (Dlq.id d) ("dlq_" +:+ pretty now))
          (dead_letter_queue (database st)) = false ->
  dead_letter_queue (database (processJob_catch config now rnd job message st))
  = dead_letter_queue (database st) ++
    [Dlq.Row ("dlq_" +:+ pretty now) (Some (Job.id job)) None (row_object job) message
             (Some (Job.attempts job)) (seconds now)]
  /\ getJob (Job.id job) (database (processJob_catch config now rnd job message st))
     = (fun r => foldl assign r [set_status FAILED; set_error message;
                                 set_attempts (Job.attempts job + 1)])
       <$> getJob (Job.id job) (database st).
Proof.
  intros Hmax Hfree. unfold processJob_catch.
  apply Z.leb_le in Hmax. rewrite Hmax. unfold addToDeadLetter. simpl.
  rewrite Hfree. simpl. split; [done|]. apply getJob_updateJob.
Qed.

(** C2: with three attempts configured and a backend that rejects every
    dispatch, the job ends FAILED with 3 attempts in its row and exactly
    one dead letter, which carries the final error but 2 as its attempt
    count. *)
Theorem dead_letter_attempts_lag_behind :
  exists s,
    exhausted = Some s
    /\ maxRetryAttempts retry_config = 3
    /\ map (fun r => (Job.id r, Job.status r, Job.attempts r, Job.error r))
           (jobs (database (qm s)))
       = [("job-1", FAILED, 3, Some "boom")]
    /\ map (fun d => (Dlq.id d, Dlq.original_job_id d, Dlq.error d, Dlq.attempts d))
           (dead_letter_queue (database (qm s)))
       = [("dlq_4005", Some "job-1", "boom", Some 2)].
Proof.
  eexists. split; [vm_compute; reflexivity|].
  split; [reflexivity|]. split; vm_compute; reflexivity.
Qed.

(** A dead letter written by [processJob] is retried without endpoint. *)
Lemma retryDeadLetter_of_snapshot config uuid now dlqId st d job :
  List.find (fun j => String.eqb (Dlq.id j) dlqId) (getDeadLetterJobs (database st)) = Some d ->
  Dlq.job_data d = row_object job ->
  retryDeadLetter config uuid now dlqId st
  = submitJob config uuid now None (Job.input job) {| skipDeduplication := Some true |} st.
Proof. intros Hfind Hdata. unfold retryDeadLetter. by rewrite Hfind, Hdata. Qed.

Lemma retryDeadLetter_keeps_dead_letters config uuid now dlqId st :
  dead_letter_queue (database (snd (retryDeadLetter config uuid now dlqId st)))
  = dead_letter_queue (database st).
Proof.
  unfold retryDeadLetter. repeat case_match; try done;
    unfold submitJob, createJob; repeat case_match; by simplify_eq/=.
Qed.

(** C7: retrying the dead letter of a job that was submitted for endpoint
    ep1 queues a new PENDING job with the same input, leaves the dead
    letter in place, but the new row has no endpoint. *)
Theorem retryDeadLetter_drops_endpoint :
  exists s st',
    exhausted = Some s
    /\ retryDeadLetter retry_config "job-2" 9000 "dlq_4005" (qm s)
       = (inr (Queued "job-2" PENDING), st')
    /\ map (fun r => (Job.id r, Job.endpoint_id r, Job.status r, Job.input r))
           (jobs (database st'))
       = [("job-1", Some "ep1", FAILED, cat_input); ("job-2", None, PENDING, cat_input)]
    /\ map Dlq.endpoint_id (dead_letter_queue (database st')) = [None]
    /\ dead_letter_queue (database st') = dead_letter_queue (database (qm s)).
Proof.
  do 2 eexists. split; [vm_compute; reflexivity|].
  split; [vm_compute; reflexivity|].
  split; [vm_compute; reflexivity|].
  split; vm_compute; reflexivity.
Qed.

Lemma retryDeadLetter_not_found config uuid now dlqId st :
  (forall d, d ∈ dead_letter_queue (database st) -> Dlq.id d <> dlqId) ->
  retryDeadLetter config uuid now dlqId st = (inl (Error "Dead letter job not found"), st).
Proof.
  intros Habsent. unfold retryDeadLetter.
  destruct (List.find _ _) as [d|] eqn:Hfind; [|done].
  apply find_some in Hfind as [Hin Hid]. apply String.eqb_eq in Hid.
  apply list_elem_of_In in Hin. unfold getDeadLetterJobs in Hin.
  rewrite (order_by_perm dlq_desc) in Hin. by apply Habsent in Hin.
Qed.

(** ** A successful job, end to end *)

Example job_completes :
  exists s,
    run default_config any_turn completed_run (initial default_config) = Some s
    /\ map (fun r => (Job.id r, Job.status r, Job.runpod_job_id r, Job.output r,
                      Job.duration_ms r, Job.attempts r))
           (jobs (database (qm s)))
       = [("job-1", COMPLETED, Some "r1", Some (JObj [("url", JStr "x.png")]), Some 900, 1)]
    /\ activeJobs (qm s) = ∅
    /\ isProcessing (qm s) = false
    /\ sent (qm s)
       = [job_created "job-1" PENDING; job_running "job-1"; job_queued "job-1" "r1";
          job_completed "job-1" (JObj [("url", JStr "x.png")]) 900].
Proof.
  eexists. split; [vm_compute; reflexivity|].
  split; [vm_compute; reflexivity|].
  split; [vm_compute; reflexivity|].
  split; vm_compute; reflexivity.
Qed.

(** * Further properties of the code *)

(** ** An accepted submission *)

Lemma getJob_app_new i rows db r :
  jobs db = rows ++ [r] -> i ∉ map Job.id rows -> Job.id r = i -> getJob i db = Some r.
Proof.
  intros Hjobs Hnew Hid. unfold getJob. rewrite Hjobs. clear Hjobs.
  induction rows as [|x rows IH]; simpl.
  - apply has_id_true in Hid. by rewrite Hid.
  - destruct (has_id i x) eqn:E.
    + apply has_id_true in E. exfalso. apply Hnew. simpl. rewrite E. left.
    + apply IH. intros Hin. apply Hnew. simpl. by right.
Qed.

Lemma submitJob_accepts config uuid now endpointId input options st h :
  hashInput input = inr h ->
  default false (skipDeduplication options) = true
    \/ getJobByHash h (database st) = None ->
  getTodaySpend now (database st) < budgetLimitDaily config ->
  uuid ∉ map Job.id (jobs (database st)) ->
  submitJob config uuid now endpointId input options st
  = (inr (Queued uuid PENDING),
     broadcast (job_created uuid PENDING)
       (with_db (with_jobs (jobs (database st) ++
                   [Job.Row uuid None (as_text endpointId) PENDING h input None None None
                            None 0 None (seconds now) None None])) st)).
Proof.
  intros Hh Hnodup Hspend Hnew.
  assert (Hex : existsb (has_id uuid) (jobs (database st)) = false).
  { destruct (existsb _ _) eqn:E; [|done]. apply existsb_exists in E as (r & Hr & Hid).
    exfalso. apply Hnew. apply has_id_true in Hid. subst uuid.
    apply list_elem_of_fmap_2. by apply list_elem_of_In. }
  assert (Hnone : (if negb (default false (skipDeduplication options))
                   then getJobByHash h (database st) else None) = None).
  { destruct Hnodup as [-> | ->]; [done|]. by destruct (negb _). }
  assert (Hlt : (budgetLimitDaily config <=? getTodaySpend now (database st)) = false)
    by (apply Z.leb_gt; lia).
  unfold submitJob. rewrite Hh, Hnone, Hlt. unfold createJob. simpl.
  by rewrite Hex.
Qed.

(** X1: a submission that is no duplicate, under the daily limit and with
    an id not yet in the table appends exactly one row (PENDING, no
    attempts, no handle, the hash and the input given), which [getJob]
    then returns under that id, broadcasts [job:created] once and touches
    nothing else. *)
Theorem submitJob_queues_new_job config uuid now endpointId input options st h :
  hashInput input = inr h ->
  default false (skipDeduplication options) = true
    \/ getJobByHash h (database st) = None ->
  getTodaySpend now (database st) < budgetLimitDaily config ->
  uuid ∉ map Job.id (jobs (database st)) ->
  let row := Job.Row uuid None (as_text endpointId) PENDING h input None None None None 0
                     None (seconds now) None None in
  exists st',
    submitJob config uuid now endpointId input options st = (inr (Queued uuid PENDING), st')
    /\ jobs (database st') = jobs (database st) ++ [row]
    /\ getJob uuid (database st') = Some row
    /\ dead_letter_queue (database st') = dead_letter_queue (database st)
    /\ cost_log (database st') = cost_log (database st)
    /\ sent st' = sent st ++ [job_created uuid PENDING]
    /\ activeJobs st' = activeJobs st
    /\ rateLimitTokens st' = rateLimitTokens st
    /\ isProcessing st' = isProcessing st.
Proof.
  intros Hh Hnodup Hspend Hnew row.
  eexists. split; [by apply (submitJob_accepts _ _ _ _ _ _ _ h)|]. simpl.
  split; [done|]. split; [|done]. by eapply getJob_app_new.
Qed.

Lemma submitJob_queues_new_job_witness :
  exists st',
    submitJob default_config "job-1" 1000 ep1 cat_input no_options fresh
      = (inr (Queued "job-1" PENDING), st')
    /\ getJob "job-1" (database st')
       = Some (Job.Row "job-1" None (Some "ep1") PENDING "67c3aa923cd483dc" cat_input None
                       None None None 0 None 1 None None).
Proof.
  destruct (submitJob_queues_new_job default_config "job-1" 1000 ep1 cat_input no_options
              fresh "67c3aa923cd483dc") as (st' & Hsub & _ & Hget & _).
  - vm_compute. reflexivity.
  - right. reflexivity.
  - vm_compute. reflexivity.
  - apply not_elem_of_nil.
  - exists st'. split; [exact Hsub|exact Hget].
Defined.

(** ** The budget check of the cost tracker and the gate of [submitJob] *)



(** ** The cost ledger *)






(** ** What the turns of the event loop do to the tables *)

Lemma fixed_assign r a : fixed_columns (assign r a) = fixed_columns r.
Proof. by destruct r, a. Qed.

Lemma fixed_update_row i updates r : fixed_columns (update_row i updates r) = fixed_columns r.
Proof.
  unfold update_row. destruct (has_id i r); [|done].
  revert r. induction updates as [|a updates IH]; intros r; simpl; [done|].
  by rewrite IH, fixed_assign.
Qed.

Lemma fixed_updateJob i updates db :
  map fixed_columns (jobs (updateJob i updates db)) = map fixed_columns (jobs db).
Proof. simpl. rewrite map_map. apply map_ext. intros r. apply fixed_update_row. Qed.

Lemma db_step_refl db : db_step db db.
Proof. split; auto. Qed.

Lemma db_step_updateJob i updates db : db_step db (updateJob i updates db).
Proof. split; [left; apply fixed_updateJob|by left|done]. Qed.

Lemma db_step_update_after i updates db db' :
  db_step db db' -> db_step db (updateJob i updates db').
Proof.
  intros [Hj Hd Hc]. split; [|done|done]. rewrite fixed_updateJob. done.
Qed.

Lemma db_step_update_before i updates db db' :
  db_step (updateJob i updates db) db' -> db_step db db'.
Proof.
  intros [Hj Hd Hc]. split; [|done|done].
  rewrite fixed_updateJob in Hj.
  assert (Hids : map Job.id (jobs (updateJob i updates db)) = map Job.id (jobs db))
    by apply map_id_update_row.
  by rewrite Hids in Hj.
Qed.

Lemma db_step_submitJob config uuid now endpointId input options st :
  db_step (database st) (database (snd (submitJob config uuid now endpointId input options st))).
Proof.
  assert (Hrest :
    dead_letter_queue (database (snd (submitJob config uuid now endpointId input options st)))
    = dead_letter_queue (database st)
    /\ cost_log (database (snd (submitJob config uuid now endpointId input options st)))
       = cost_log (database st)).
  { unfold submitJob, createJob. repeat case_match; by simplify_eq/=. }
  destruct Hrest as [Hd Hc]. split; [|left; exact Hd|exact Hc].
  destruct (jobs_submitJob config uuid now endpointId input options st)
    as [Hsame|(h & Hh & Hnodup & Hex & Happ)]; simpl in *.
  - left. by rewrite Hsame.
  - right. eexists. rewrite Happ, map_app. split; [done|]. simpl.
    split; [by apply existsb_has_id_false|done].
Qed.

Lemma db_step_retryDeadLetter config uuid now dlqId st :
  db_step (database st) (database (snd (retryDeadLetter config uuid now dlqId st))).
Proof.
  unfold retryDeadLetter. repeat case_match; try apply db_step_refl; apply db_step_submitJob.
Qed.

Lemma db_step_processJob_begin now job st :
  db_step (database st) (database (processJob_begin now job st)).
Proof. apply db_step_updateJob. Qed.

Lemma db_step_processJob_queued startTime job rid st :
  db_step (database st) (database (processJob_queued startTime job rid st)).
Proof. apply db_step_updateJob. Qed.

Lemma existsb_dlq_false i (l : list Dlq.row) :
  existsb (fun d => String.eqb (Dlq.id d) i) l = false -> i ∉ map Dlq.id l.
Proof.
  intros Hex (d & -> & Hd)%list_elem_of_fmap.
  assert (Hyes : existsb (fun d' => String.eqb (Dlq.id d') (Dlq.id d)) l = true).
  { apply existsb_exists. exists d. split; [by apply list_elem_of_In|apply String.eqb_refl]. }
  congruence.
Qed.

Lemma db_step_processJob_catch config now rnd job message st :
  db_step (database st) (database (processJob_catch config now rnd job message st)).
Proof.
  unfold processJob_catch. destruct (_ <=? _); [|apply db_step_updateJob].
  unfold addToDeadLetter. destruct (existsb _ _) eqn:Hex; [apply db_step_updateJob|].
  split; simpl; [left; apply fixed_updateJob| |done].
  right. eexists. split; [done|]. simpl. by apply existsb_dlq_false.
Qed.

Lemma db_step_pollActiveJobs_body now jobId info status st :
  db_step (database st) (database (pollActiveJobs_body now jobId info status st)).
Proof. destruct status; try apply db_step_refl; apply db_step_updateJob. Qed.

Lemma db_step_cancel_finish jobId st :
  db_step (database st) (database (cancel_finish jobId st)).
Proof. apply db_step_updateJob. Qed.

Lemma db_step_start_jobs now pending st st' tasks :
  start_jobs now pending st = (st', tasks) -> db_step (database st) (database st').
Proof.
  revert st st' tasks. induction pending as [|job rest IH]; intros st st' tasks; simpl.
  - intros [= <- <-]. apply db_step_refl.
  - destruct (acquireRateLimitToken (processJob_begin now job st)) as [st1|] eqn:Hacq;
      destruct (start_jobs now rest _) as [st3 tasks'] eqn:Hrest; intros [= <- <-];
      apply IH in Hrest.
    + apply jobs_acquire in Hacq. rewrite Hacq in Hrest.
      by apply db_step_update_before in Hrest.
    + by apply db_step_update_before in Hrest.
Qed.

Lemma db_step_step config l s s' :
  step config l s = Some s' ->
  match l with
  | cost_logged entry =>
      jobs (database (qm s')) = jobs (database (qm s))
      /\ dead_letter_queue (database (qm s')) = dead_letter_queue (database (qm s))
      /\ cost_log (database (qm s')) = cost_log (database (qm s)) ++ [entry]
  | _ => db_step (database (qm s)) (database (qm s'))
  end.
Proof.
  intros Hstep. label_cases l; simpl in Hstep.
  - simplify_eq. apply db_step_submitJob.
  - simplify_eq. apply db_step_retryDeadLetter.
  - repeat case_match; simplify_eq; try apply db_step_refl. apply db_step_cancel_finish.
  - case_match; [|done]. simplify_eq. destruct outcome; [apply db_step_refl|].
    simpl. apply db_step_updateJob.
  - destruct (isProcessing (qm s)); [simplify_eq; apply db_step_refl|].
    destruct (start_jobs _ _ _) as [st' tasks] eqn:Hstart. simplify_eq.
    by apply db_step_start_jobs in Hstart.
  - repeat case_match; simplify_eq; apply db_step_refl.
  - repeat case_match; simplify_eq; apply db_step_refl.
  - simplify_eq. apply db_step_refl.
  - repeat case_match; simplify_eq; try apply db_step_refl.
    unfold acquireRateLimitToken in *. case_match; simplify_eq. apply db_step_refl.
  - repeat case_match; simplify_eq.
    + apply db_step_processJob_queued.
    + apply db_step_processJob_catch.
  - repeat case_match; simplify_eq; apply db_step_refl.
  - repeat case_match; simplify_eq. apply db_step_pollActiveJobs_body.
  - by simplify_eq.
  - simplify_eq. apply db_step_refl.
Qed.

Lemma ids_of_fixed rows :
  map Job.id rows = map (fun c => c.1.1.1.1.1.1) (map fixed_columns rows).
Proof. rewrite map_map. by apply map_ext. Qed.

Lemma db_step_ids db db' :
  db_step db db' ->
  NoDup (map Job.id (jobs db)) -> NoDup (map Job.id (jobs db')).
Proof.
  intros [[Hsame|(r & Happ & Hnew & _)] _ _] Hnd.
  - by rewrite ids_of_fixed, Hsame, <- ids_of_fixed.
  - rewrite (ids_of_fixed (jobs db')), Happ, map_app, <- ids_of_fixed. simpl.
    apply NoDup_app. split; [done|]. split; [|apply NoDup_singleton].
    by intros i Hi ->%list_elem_of_singleton.
Qed.

Lemma db_step_dlq_ids db db' :
  db_step db db' ->
  NoDup (map Dlq.id (dead_letter_queue db)) -> NoDup (map Dlq.id (dead_letter_queue db')).
Proof.
  intros [_ [Hsame|(d & Happ & Hnew)] _] Hnd.
  - by rewrite Hsame.
  - rewrite Happ, map_app. simpl.
    apply NoDup_app. split; [done|]. split; [|apply NoDup_singleton].
    by intros i Hi ->%list_elem_of_singleton.
Qed.

Lemma db_step_no_cost db db' :
  db_step db db' ->
  Forall no_cost (map fixed_columns (jobs db)) ->
  Forall no_cost (map fixed_columns (jobs db')).
Proof.
  intros [[Hsame|(r & Happ & _ & Hgpu & Hcost)] _ _] Hall.
  - by rewrite Hsame.
  - rewrite Happ. apply Forall_app. split; [done|]. by repeat constructor.
Qed.

Lemma db_step_prefix db db' :
  db_step db db' ->
  map fixed_columns (jobs db) `prefix_of` map fixed_columns (jobs db')
  /\ dead_letter_queue db `prefix_of` dead_letter_queue db'.
Proof.
  intros [Hj Hd _]. split.
  - destruct Hj as [->|(r & -> & _)]; [done|]. by apply prefix_app_r.
  - destruct Hd as [->|(d & -> & _)]; [done|]. by apply prefix_app_r.
Qed.

Lemma getJob_iff i db r :
  NoDup (map Job.id (jobs db)) ->
  getJob i db = Some r <-> r ∈ jobs db /\ Job.id r = i.
Proof.
  intros Hnd. split; [apply getJob_Some|]. intros [Hr Hid].
  destruct (getJob i db) as [r'|] eqn:Hget.
  - apply getJob_Some in Hget as [Hr' Hid']. f_equal.
    apply (NoDup_ids_eq (jobs db)); congruence.
  - by pose proof (getJob_None _ _ _ Hget Hr).
Qed.

Lemma db_step_any config l s s' :
  step config l s = Some s' ->
  db_step (database (qm s))
    (Db (jobs (database (qm s'))) (dead_letter_queue (database (qm s')))
        (cost_log (database (qm s)))).
Proof.
  intros Hstep. apply db_step_step in Hstep.
  destruct l;
    lazymatch type of Hstep with
    | db_step _ _ => destruct Hstep as [Hj Hd Hc]; by split
    | _ => destruct Hstep as (Hj & Hd & _); split; simpl; [left; by rewrite Hj|by left|done]
    end.
Qed.

Section Keys.

Variable config : Config.

Lemma keys_reachable s :
  reachable config s ->
  NoDup (map Job.id (jobs (database (qm s))))
  /\ NoDup (map Dlq.id (dead_letter_queue (database (qm s))))
  /\ Forall no_cost (map fixed_columns (jobs (database (qm s)))).
Proof.
  revert s. apply reachable_by_invariant.
  - simpl. split; [apply NoDup_nil_2|]. split; [apply NoDup_nil_2|done].
  - intros l s s' (Hids & Hdlq & Hcost) _ Hstep. apply db_step_any in Hstep.
    split; [|split].
    + by apply (db_step_ids _ _ Hstep).
    + by apply (db_step_dlq_ids _ _ Hstep).
    + by apply (db_step_no_cost _ _ Hstep).
Qed.

End Keys.



Lemma sql_sum_no_value (values : list (option Z)) :
  Forall (fun v => v = None) values -> sql_sum values = None.
Proof.
  intros Hall. unfold sql_sum.
  assert (Hnone : omap (fun v => v) values = []).
  { induction Hall as [|v l Hv Hl IH]; [done|]. subst v. csimpl. exact IH. }
  by rewrite Hnone.
Qed.

(** X6: the queue never writes the cost or the GPU of a job: in every
    reachable state both columns are NULL in every row, and the total
    cost that [getJobStats] and [getStats] report is NULL. *)
Theorem job_cost_is_never_recorded config s :
  reachable config s ->
  (forall r, r ∈ jobs (database (qm s)) -> Job.cost_usd r = None /\ Job.gpu_used r = None)
  /\ Stats.total_cost (getJobStats (database (qm s))) = None
  /\ Stats.total_cost (dbStats (getStats (qm s))) = None.
Proof.
  intros Hs. destruct (keys_reachable config s Hs) as (_ & _ & Hcost).
  rewrite Forall_fmap, Forall_forall in Hcost.
  assert (Hrows : forall r, r ∈ jobs (database (qm s)) ->
                            Job.cost_usd r = None /\ Job.gpu_used r = None).
  { intros r Hr. destruct (Hcost r Hr) as [Hg Hc]. by split. }
  assert (Htotal : Stats.total_cost (getJobStats (database (qm s))) = None).
  { simpl. apply sql_sum_no_value, Forall_fmap, Forall_forall.
    intros r Hr. by destruct (Hrows r Hr). }
  split; [exact Hrows|]. split; exact Htotal.
Qed.

Lemma job_cost_is_never_recorded_witness :
  Job.cost_usd running_job = None /\ Job.gpu_used running_job = None.
Proof.
  destruct (job_cost_is_never_recorded default_config dispatching_one) as [Hrows _].
  - exists [call_submitJob "job-1" 1000 (Some (JStr "ep1")) (JObj [("prompt", JStr "cat")])
              no_options;
            timer_tick 2000].
    vm_compute. reflexivity.
  - apply Hrows. vm_compute. left.
Defined.

(** X7: no turn of the event loop removes a job row, a dead letter or an
    entry of the cost log, reorders them or changes the id, the endpoint,
    the input, its hash, the GPU, the cost or the creation time of a job:
    along every run the three tables only grow at their ends. *)
Theorem run_only_appends_rows config ok ls s s' :
  run config ok ls s = Some s' ->
  map fixed_columns (jobs (database (qm s)))
    `prefix_of` map fixed_columns (jobs (database (qm s')))
  /\ dead_letter_queue (database (qm s)) `prefix_of` dead_letter_queue (database (qm s'))
  /\ cost_log (database (qm s)) `prefix_of` cost_log (database (qm s')).
Proof.
  revert s. induction ls as [|l ls IH]; intros s Hrun; simpl in Hrun.
  - by simplify_eq.
  - destruct (ok l s); [|done]. destruct (step config l s) as [s1|] eqn:Hstep; [|done].
    destruct (IH _ Hrun) as (Hj & Hd & Hc).
    pose proof (db_step_prefix _ _ (db_step_any _ _ _ _ Hstep)) as [Hj1 Hd1]. simpl in *.
    split; [by etransitivity|]. split; [by etransitivity|].
    etransitivity; [|exact Hc]. apply db_step_step in Hstep.
    destruct l;
      lazymatch type of Hstep with
      | db_step _ _ => destruct Hstep as [_ _ Hlog]; by rewrite Hlog
      | _ => destruct Hstep as (_ & _ & Hlog); rewrite Hlog; by apply prefix_app_r
      end.
Qed.

Lemma run_only_appends_rows_witness :
  map fixed_columns (jobs (database (qm dispatching_one)))
    `prefix_of` map fixed_columns (jobs (database (qm completed))).
Proof.
  destruct (run_only_appends_rows default_config any_turn (drop 2 completed_run)
              dispatching_one completed) as [Hjobs _].
  - vm_compute. reflexivity.
  - exact Hjobs.
Defined.

Lemma cost_log_run config ls s s' :
  run config logs_no_cost ls s = Some s' ->
  cost_log (database (qm s')) = cost_log (database (qm s)).
Proof.
  revert s. induction ls as [|l ls IH]; intros s Hrun; simpl in Hrun.
  - by simplify_eq.
  - destruct (logs_no_cost l s) eqn:Hok; [|done].
    destruct (step config l s) as [s1|] eqn:Hstep; [|done].
    rewrite (IH _ Hrun). apply db_step_step in Hstep.
    destruct l; try done; by destruct Hstep as [_ _ Hlog].
Qed.

(** X8: whatever the jobs do, the spend of the day that [submitJob] and
    [canSpend] read stays the same: only a logged cost of a pod moves it. *)
Theorem jobs_never_count_against_budget config ls s s' :
  run config logs_no_cost ls s = Some s' ->
  cost_log (database (qm s')) = cost_log (database (qm s))
  /\ forall now, getTodaySpend now (database (qm s')) = getTodaySpend now (database (qm s))
  /\ forall now cost, canSpend config now cost (database (qm s'))
                      = canSpend config now cost (database (qm s)).
Proof.
  intros Hrun. apply cost_log_run in Hrun. split; [done|].
  assert (Hspend : forall now, getTodaySpend now (database (qm s'))
                               = getTodaySpend now (database (qm s)))
    by (intros now; unfold getTodaySpend; by rewrite Hrun).
  intros now. split; [done|]. intros now' cost. unfold canSpend. by rewrite Hspend.
Qed.

Lemma jobs_never_count_against_budget_witness :
  cost_log (database (qm completed)) = cost_log (database (qm (initial default_config))).
Proof.
  destruct (jobs_never_count_against_budget default_config completed_run
              (initial default_config) completed) as [Hlog _].
  - vm_compute. reflexivity.
  - exact Hlog.
Defined.

(** ** Lookups after a turn *)

Lemma find_update_other i j updates rows :
  i <> j -> find (has_id i) (map (update_row j updates) rows) = find (has_id i) rows.
Proof.
  intros Hne. induction rows as [|r rows IH]; simpl; [done|].
  destruct (has_id i r) eqn:E.
  - apply has_id_true in E. rewrite update_row_other by congruence.
    apply has_id_true in E. by rewrite E.
  - assert (E' : has_id i (update_row j updates r) = false).
    { unfold has_id in *. by rewrite id_update_row. }
    by rewrite E'.
Qed.

Lemma getJob_updateJob_other i j updates db :
  i <> j -> getJob i (updateJob j updates db) = getJob i db.
Proof. intros Hne. unfold getJob. simpl. by apply find_update_other. Qed.

Lemma getJob_append i db db' r rows :
  jobs db' = jobs db ++ rows -> getJob i db = Some r -> getJob i db' = Some r.
Proof.
  unfold getJob. intros -> Hget. induction (jobs db) as [|x l IH]; simpl in *; [done|].
  destruct (has_id i x); [done|auto].
Qed.

Lemma getJob_submitJob config uuid now endpointId input options st i r :
  getJob i (database st) = Some r ->
  getJob i (database (snd (submitJob config uuid now endpointId input options st))) = Some r.
Proof.
  intros Hget.
  destruct (jobs_submitJob config uuid now endpointId input options st)
    as [Hsame|(h & _ & _ & _ & Happ)]; simpl in *.
  - unfold getJob in *. by rewrite Hsame.
  - by eapply getJob_append.
Qed.

Lemma getJob_retryDeadLetter config uuid now dlqId st i r :
  getJob i (database st) = Some r ->
  getJob i (database (snd (retryDeadLetter config uuid now dlqId st))) = Some r.
Proof.
  intros Hget. unfold retryDeadLetter. repeat case_match; try done; by apply getJob_submitJob.
Qed.

Lemma getJob_start_jobs now pending st st' tasks i :
  start_jobs now pending st = (st', tasks) ->
  i ∉ map Job.id pending ->
  getJob i (database st') = getJob i (database st).
Proof.
  revert st st' tasks. induction pending as [|job rest IH]; intros st st' tasks; simpl.
  - by intros [= <- <-].
  - intros Hstart Hnot. apply not_elem_of_cons in Hnot as [Hne Hnot].
    assert (Hbegin : getJob i (database (processJob_begin now job st)) = getJob i (database st))
      by (by apply getJob_updateJob_other).
    destruct (acquireRateLimitToken (processJob_begin now job st)) as [st1|] eqn:Hacq;
      destruct (start_jobs now rest _) as [st3 tasks'] eqn:Hrest; simplify_eq;
      rewrite (IH _ _ _ Hrest Hnot).
    + apply jobs_acquire in Hacq. by rewrite Hacq.
    + done.
Qed.

Lemma getJob_processJob_catch config now rnd job message st i :
  i <> Job.id job ->
  getJob i (database (processJob_catch config now rnd job message st)) = getJob i (database st).
Proof.
  intros Hne. unfold getJob. rewrite jobs_processJob_catch. by apply find_update_other.
Qed.

Lemma getJob_pollActiveJobs_body now jobId info status st i :
  i <> jobId ->
  getJob i (database (pollActiveJobs_body now jobId info status st)) = getJob i (database st).
Proof.
  intros Hne. destruct status; try done; by apply getJob_updateJob_other.
Qed.

Lemma getJob_step config l s s' i r :
  step config l s = Some s' ->
  getJob i (database (qm s)) = Some r ->
  i ∉ touched config l s ->
  getJob i (database (qm s')) = Some r.
Proof.
  intros Hstep Hget Hnot. label_cases l; simpl in Hstep, Hnot.
  - simplify_eq. by apply getJob_submitJob.
  - simplify_eq. by apply getJob_retryDeadLetter.
  - apply not_elem_of_cons in Hnot as [Hne _].
    repeat case_match; simplify_eq; try done. simpl. by rewrite getJob_updateJob_other.
  - apply not_elem_of_cons in Hnot as [Hne _].
    case_match; [|done]. simplify_eq. destruct outcome; [done|]. simpl.
    by rewrite getJob_updateJob_other.
  - destruct (isProcessing (qm s)); [by simplify_eq|].
    destruct (start_jobs _ _ _) as [st' tasks] eqn:Hstart. simplify_eq. simpl.
    by rewrite (getJob_start_jobs _ _ _ _ _ _ Hstart Hnot).
  - repeat case_match; by simplify_eq.
  - repeat case_match; by simplify_eq.
  - by simplify_eq.
  - repeat case_match; simplify_eq; try done.
    unfold acquireRateLimitToken in *. case_match; by simplify_eq.
  - destruct (loop s) as [|tasks|] eqn:Hloop; try done. simpl in Hnot.
    destruct (tasks !! k) as [t|] eqn:Hk; [|done]. destruct (task_token t); [|done].
    apply not_elem_of_cons in Hnot as [Hne _]. simplify_eq. simpl.
    destruct result as [rid|m].
    + simpl. by rewrite getJob_updateJob_other.
    + by rewrite getJob_processJob_catch.
  - repeat case_match; by simplify_eq.
  - destruct (loop s) as [| |[[jobId info]|] rest] eqn:Hloop; try done.
    apply not_elem_of_cons in Hnot as [Hne _]. simplify_eq. simpl.
    by rewrite getJob_pollActiveJobs_body.
  - by simplify_eq.
  - by simplify_eq.
Qed.

(** ** Rows that no turn touches *)

Section Untracked.

Variable config : Config.
Variable i : string.
Variable r : Job.row.

Hypothesis not_pending : Job.status r <> PENDING.

Lemma frozen_untouched l s s' :
  frozen i r s -> leaves_alone i l s = true -> step config l s = Some s' ->
  i ∉ touched config l s.
Proof.
  intros (Hnd & Hget & Hfl & Hact & Hcur & Hcan) Hok Hstep.
  label_cases l; simpl in *; try apply not_elem_of_nil.
  - apply negb_true_iff, String.eqb_neq in Hok.
    apply not_elem_of_cons. split; [congruence|apply not_elem_of_nil].
  - case_bool_decide as Hin; [|done].
    apply not_elem_of_cons. split; [by intros ->|apply not_elem_of_nil].
  - destruct (isProcessing (qm s)); [apply not_elem_of_nil|].
    intros (job & Hid & Hjob)%list_elem_of_fmap.
    apply getPendingJobs_pending in Hjob as [Hjob Hst]. simpl in Hjob.
    assert (Hsame : getJob i (database (qm s)) = Some job) by (by apply getJob_iff).
    congruence.
  - destruct (loop s) as [|tasks|] eqn:Hloop; try done. simpl.
    destruct (tasks !! k) as [t|] eqn:Hk; [|done].
    apply not_elem_of_cons. split; [|apply not_elem_of_nil]. intros ->. apply Hfl.
    unfold in_flight. rewrite Hloop. simpl. apply list_elem_of_fmap.
    exists t. split; [done|]. by eapply list_elem_of_lookup_2.
  - destruct (loop s) as [| |[[jobId info]|] rest] eqn:Hloop; try done.
    apply not_elem_of_cons. split; [|apply not_elem_of_nil]. intros ->.
    by apply (Hcur info rest).
Qed.

Lemma frozen_step l s s' :
  frozen i r s -> leaves_alone i l s = true -> step config l s = Some s' -> frozen i r s'.
Proof.
  intros Hfrozen Hok Hstep.
  pose proof (frozen_untouched l s s' Hfrozen Hok Hstep) as Hnot.
  destruct Hfrozen as (Hnd & Hget & Hfl & Hact & Hcur & Hcan).
  split; [|split].
  - apply db_step_any in Hstep. by apply (db_step_ids _ _ Hstep).
  - by eapply getJob_step.
  - assert (Hunt : untracked i s) by (by repeat split).
    clear Hget Hnd.
    label_cases l; simpl in Hstep, Hok, Hnot.
    + simplify_eq. unfold untracked. simpl.
      destruct (manager_submitJob config uuid now ep input options (qm s)) as [-> _].
      by repeat split.
    + simplify_eq. unfold untracked. simpl.
      destruct (manager_retryDeadLetter config uuid now dlqId (qm s)) as [-> _].
      by repeat split.
    + apply not_elem_of_cons in Hnot as [Hne _].
      destruct (getJob jobId (database (qm s))) as [job|]; [|by simplify_eq].
      destruct (needs_remote_cancel job (qm s)); simplify_eq.
      * split; [done|]. split; [done|]. split; [done|]. simpl.
        by apply not_elem_of_cons.
      * by repeat split.
    + case_bool_decide as Hin; [|done]. simplify_eq.
      split; [done|]. split; simpl.
      * destruct outcome; [done|]. simpl. apply lookup_delete_None. by right.
      * split; [done|]. intros Hi. by apply elem_of_remove_first in Hi.
    + destruct (isProcessing (qm s)); [by simplify_eq|].
      destruct (start_jobs _ _ _) as [st' tasks] eqn:Hstart. simplify_eq.
      apply manager_start_jobs in Hstart as (Ha & _ & Htasks).
      split; [|simpl; by rewrite Ha].
      unfold in_flight. simpl. by rewrite <- (map_map task_job Job.id), Htasks.
    + destruct (loop s) as [|[|t tasks]|] eqn:Hloop; try done. simplify_eq.
      split; [apply not_elem_of_nil|done].
    + destruct (loop s) as [| |[cur|] [|j rest]] eqn:Hloop; try done. simplify_eq.
      split; [apply not_elem_of_nil|done].
    + simplify_eq. by repeat split.
    + destruct (loop s) as [|tasks|] eqn:Hloop; try done.
      destruct (tasks !! k) as [t|] eqn:Hk; [|done]. destruct (task_token t); [done|].
      unfold acquireRateLimitToken in Hstep.
      destruct (rateLimitTokens (qm s) <? 1); simplify_eq; [done|].
      split; [|done]. unfold in_flight in *. rewrite Hloop in Hfl. simpl in *.
      rewrite list_fmap_insert. simpl. rewrite list_insert_id; [done|].
      by rewrite list_lookup_fmap, Hk.
    + destruct (loop s) as [|tasks|] eqn:Hloop; try done. simpl in Hnot.
      destruct (tasks !! k) as [t|] eqn:Hk; [|done]. destruct (task_token t); [|done].
      apply not_elem_of_cons in Hnot as [Hne _]. simplify_eq.
      split; [|split; [|done]].
      * unfold in_flight in *. rewrite Hloop in Hfl. simpl in *.
        intros Hi. apply Hfl. rewrite list_fmap_delete in Hi.
        by eapply list_elem_of_delete_inv.
      * simpl. destruct result as [rid|m].
        -- simpl. by rewrite lookup_insert_ne.
        -- by destruct (manager_processJob_catch config now rnd (task_job t) m (qm s))
             as [-> _].
    + destruct (loop s) as [| |[cur|] rest] eqn:Hloop; try done.
      case_bool_decide; [|done]. simplify_eq.
      split; [apply not_elem_of_nil|]. split; [done|]. split; [|done]. simpl.
      intros info rest' [= Hcur' _].
      destruct (activeJobs (qm s) !! jobId) as [info'|] eqn:Hj; simplify_eq/=.
    + destruct (loop s) as [| |[[jobId info]|] rest] eqn:Hloop; try done.
      apply not_elem_of_cons in Hnot as [Hne _]. simplify_eq.
      split; [apply not_elem_of_nil|]. split; [|done]. simpl.
      destruct status; simpl; try done; apply lookup_delete_None; by right.
    + simplify_eq. by repeat split.
    + simplify_eq. split; [apply not_elem_of_nil|]. split; [done|].
      split; [done|apply not_elem_of_nil].
Qed.

End Untracked.

(** X9: a restart of the process forgets the jobs that were being
    dispatched or polled: as long as [cancelJob] is not called on it, a
    row that was not PENDING when the process started anew keeps every
    column for ever; a RUNNING or IN_QUEUE row is never dispatched,
    polled, completed or failed again. *)
Theorem process_restart_orphans_jobs config s r ls s' :
  reachable config s ->
  r ∈ jobs (database (qm s)) ->
  Job.status r <> PENDING ->
  run config (leaves_alone (Job.id r)) (process_restart :: ls) s = Some s' ->
  getJob (Job.id r) (database (qm s')) = Some r
  /\ activeJobs (qm s') !! Job.id r = None
  /\ Job.id r ∉ in_flight s'.
Proof.
  intros Hs Hr Hst Hrun. simpl in Hrun.
  destruct (keys_reachable config s Hs) as (Hnd & _ & _).
  assert (Hfrozen : frozen (Job.id r) r s').
  { revert Hrun. apply run_invariant.
    - intros l s1 s2. by apply frozen_step.
    - split; [done|]. split; [by apply getJob_iff|].
      split; [apply not_elem_of_nil|]. split; [done|]. split; [done|apply not_elem_of_nil]. }
  destruct Hfrozen as (_ & Hget & Hfl & Hact & _). by repeat split.
Qed.

Lemma process_restart_orphans_jobs_witness :
  getJob "job-1" (database (qm restarted)) = Some running_job.
Proof.
  apply (process_restart_orphans_jobs default_config dispatching_one running_job
           [timer_tick 3000; all_settled; tick_done] restarted).
  - exists [call_submitJob "job-1" 1000 (Some (JStr "ep1")) (JObj [("prompt", JStr "cat")])
              no_options;
            timer_tick 2000].
    vm_compute. reflexivity.
  - vm_compute. left.
  - discriminate.
  - vm_compute. reflexivity.
Defined.

Section Finished.

Variable config : Config.

Lemma finished_step l s s' i r :
  dedup_safe s -> keeps_deduplication l s = true -> step config l s = Some s' ->
  getJob i (database (qm s)) = Some r -> non_terminal (Job.status r) = false ->
  exists r', getJob i (database (qm s')) = Some r' /\ non_terminal (Job.status r') = false.
Proof.
  intros Hsafe Hok Hstep Hget Hterm.
  destruct (decide (i ∈ touched config l s)) as [Hin|Hnot];
    [|exists r; split; [by eapply getJob_step|done]].
  pose proof (ids_unique _ (safe_store s Hsafe)) as Hnd.
  label_cases l; simpl in Hstep, Hin; try by apply not_elem_of_nil in Hin.
  - apply list_elem_of_singleton in Hin as ->. rewrite Hget in Hstep.
    destruct (needs_remote_cancel r (qm s)); simplify_eq; [by exists r|].
    eexists. split; [simpl; by rewrite getJob_updateJob, Hget|]. by destruct r.
  - apply list_elem_of_singleton in Hin as ->.
    case_bool_decide; [|done]. simplify_eq. destruct outcome; [by exists r|].
    eexists. split; [simpl; by rewrite getJob_updateJob, Hget|]. by destruct r.
  - destruct (isProcessing (qm s)); [by apply not_elem_of_nil in Hin|].
    apply list_elem_of_fmap in Hin as (job & -> & Hjob).
    apply getPendingJobs_pending in Hjob as [Hjob Hst]. simpl in Hjob.
    assert (Hsame : getJob (Job.id job) (database (qm s)) = Some job) by (by apply getJob_iff).
    rewrite Hget in Hsame. simplify_eq. by rewrite Hst in Hterm.
  - destruct (loop s) as [|tasks|] eqn:Hloop; try done. simpl in Hin.
    destruct (tasks !! k) as [t|] eqn:Hk; [|done].
    apply list_elem_of_singleton in Hin as ->.
    apply getJob_Some in Hget as [Hr Hid].
    assert (Hfl : Job.id (task_job t) ∈ in_flight s).
    { unfold in_flight. rewrite Hloop. simpl. apply list_elem_of_fmap.
      exists t. split; [done|]. by eapply list_elem_of_lookup_2. }
    rewrite (task_rows_running s _ r Hsafe Hfl Hr Hid) in Hterm. done.
  - destruct (loop s) as [| |[[jobId info]|] rest] eqn:Hloop; try done.
    apply list_elem_of_singleton in Hin as ->. simplify_eq.
    destruct status as [output|error| |m]; simpl; try by exists r.
    + eexists. split; [by rewrite getJob_updateJob, Hget|]. by destruct r.
    + eexists. split; [by rewrite getJob_updateJob, Hget|]. by destruct r.
Qed.

End Finished.

(** X10: as long as deduplication is kept (no bypass, no cancellation of
    a job whose dispatch is in flight), a job that is COMPLETED, FAILED or
    CANCELLED never becomes PENDING, RUNNING or IN_QUEUE again. *)
Theorem finished_job_stays_finished config ls s s' i r :
  reachable_by config keeps_deduplication s ->
  getJob i (database (qm s)) = Some r ->
  non_terminal (Job.status r) = false ->
  run config keeps_deduplication ls s = Some s' ->
  exists r', getJob i (database (qm s')) = Some r' /\ non_terminal (Job.status r') = false.
Proof.
  intros Hs Hget Hterm Hrun.
  assert (Hsafe : dedup_safe s).
  { clear Hget Hrun. revert s Hs. apply reachable_by_invariant; [apply dedup_safe_initial|].
    intros l s s0 Hsafe Hok Hstep. by eapply dedup_step. }
  assert (Hinv : dedup_safe s' /\ exists r', getJob i (database (qm s')) = Some r'
                                   /\ non_terminal (Job.status r') = false).
  { apply (run_invariant config keeps_deduplication
             (fun s0 => dedup_safe s0 /\ exists r', getJob i (database (qm s0)) = Some r'
                                          /\ non_terminal (Job.status r') = false))
       with (ls := ls) (s := s); [|by eauto|done].
    intros l s1 s2 (Hsafe1 & r1 & Hget1 & Hterm1) Hok Hstep.
    split; [by eapply dedup_step|]. by eapply finished_step. }
  by destruct Hinv.
Qed.

Lemma finished_job_stays_finished_witness :
  exists r', getJob "job-1" (database (qm cancelled_after_completion)) = Some r'
             /\ non_terminal (Job.status r') = false.
Proof.
  apply (finished_job_stays_finished default_config [call_cancelJob "job-1"] completed
           cancelled_after_completion "job-1"
           (default running_job (getJob "job-1" (database (qm completed))))).
  - exists completed_run. vm_compute. reflexivity.
  - vm_compute. reflexivity.
  - vm_compute. reflexivity.
  - vm_compute. reflexivity.
Defined.

(** ** The tokens of a tick *)

(** X11: the [processJob] calls of a tick take their tokens in the order
    of the fetch, oldest job first: with t tokens left and n jobs fetched,
    the first min(t, n) calls hold a token when the tick suspends, the
    others wait for a refill, and min(t, n) tokens are gone. *)
Theorem start_jobs_hands_tokens_to_the_first now pending st st' tasks :
  start_jobs now pending st = (st', tasks) ->
  0 <= rateLimitTokens st ->
  let n := Z.to_nat (Z.min (rateLimitTokens st) (Z.of_nat (length pending))) in
  map task_job tasks = pending
  /\ map task_token tasks = replicate n true ++ replicate (length pending - n) false
  /\ rateLimitTokens st' = rateLimitTokens st - Z.of_nat n
  /\ Forall (fun t => task_start t = now) tasks.
Proof.
  revert st st' tasks. induction pending as [|job rest IH]; intros st st' tasks; simpl.
  - intros [= <- <-] Hpos. rewrite Z.min_r by lia. simpl. repeat split; [lia|done].
  - intros Hstart Hpos.
    pose proof (acquireRateLimitToken_spec (processJob_begin now job st)) as Hacq.
    destruct (acquireRateLimitToken (processJob_begin now job st)) as [st1|];
      destruct (start_jobs now rest _) as [st3 tasks'] eqn:Hrest; simplify_eq; simpl in *.
    + destruct Hacq as [Hone Hdec].
      destruct (IH _ _ _ Hrest) as (Hjobs & Htokens & Hleft & Hnow); [lia|].
      rewrite Hdec in *.
      replace (Z.to_nat (Z.min (rateLimitTokens st) (Z.of_nat (S (length rest)))))
        with (S (Z.to_nat (Z.min (rateLimitTokens st - 1) (Z.of_nat (length rest))))) by lia.
      simpl. rewrite Hjobs, Htokens, Hleft.
      repeat split; first [lia | by constructor | done].
    + destruct (IH _ _ _ Hrest) as (Hjobs & Htokens & Hleft & Hnow); [done|].
      simpl in *.
      replace (Z.to_nat (Z.min (rateLimitTokens st) (Z.of_nat (S (length rest)))))
        with 0%nat by lia.
      replace (Z.to_nat (Z.min (rateLimitTokens st) (Z.of_nat (length rest))))
        with 0%nat in * by lia.
      simpl in *. rewrite Nat.sub_0_r in Htokens.
      rewrite Hjobs, Htokens, Hleft.
      repeat split; first [lia | by constructor | done].
Qed.

Lemma start_jobs_hands_tokens_to_the_first_witness :
  map task_token (start_jobs 2000 [queued_job; queued_job; queued_job] fresh).2
  = [true; true; false].
Proof.
  destruct (start_jobs_hands_tokens_to_the_first 2000 [queued_job; queued_job; queued_job] fresh
              (start_jobs 2000 [queued_job; queued_job; queued_job] fresh).1
              (start_jobs 2000 [queued_job; queued_job; queued_job] fresh).2)
    as (_ & Htokens & _).
  - vm_compute. reflexivity.
  - vm_compute. discriminate.
  - exact Htokens.
Defined.

(** ** A dispatch that fails *)

Lemma getPendingJobs_room limit db r :
  r ∈ jobs db -> Job.status r = PENDING ->
  Z.of_nat (length (filter (fun x => is_pending x) (jobs db))) <= limit ->
  r ∈ getPendingJobs limit db.
Proof.
  intros Hr Hst Hroom. unfold getPendingJobs, sql_limit.
  assert (Hin : r ∈ order_by created_asc (filter (fun x => is_pending x) (jobs db))).
  { rewrite (order_by_perm created_asc). apply list_elem_of_filter. split; [|done].
    unfold is_pending. by rewrite bool_decide_true. }
  destruct (limit <? 0); [done|]. rewrite take_ge; [done|].
  rewrite (order_by_perm created_asc). lia.
Qed.

(** X12: a dispatch that fails below the ceiling of attempts puts the
    row back to PENDING with the error and the incremented count, writes
    no dead letter and broadcasts [job:retry] with the backoff delay; the
    delay is only announced: the row is fetched by the next tick that has
    room for the PENDING rows, however soon it comes. *)
Theorem failed_dispatch_is_retried_at_once config now rnd job message st r :
  Job.attempts job + 1 < maxRetryAttempts config ->
  getJob (Job.id job) (database st) = Some r ->
  let st' := processJob_catch config now rnd job message st in
  let r' := foldl assign r [set_status PENDING; set_error message;
                            set_attempts (Job.attempts job + 1)] in
  getJob (Job.id job) (database st') = Some r'
  /\ Job.status r' = PENDING
  /\ dead_letter_queue (database st') = dead_letter_queue (database st)
  /\ sent st' = sent st ++ [job_retry (Job.id job) (Job.attempts job + 1)
                                      (getBackoffDelay (Job.attempts job + 1) rnd)]
  /\ forall limit,
       Z.of_nat (length (filter (fun x => is_pending x) (jobs (database st')))) <= limit ->
       r' ∈ getPendingJobs limit (database st').
Proof.
  intros Hbelow Hget. simpl.
  assert (Hlt : (maxRetryAttempts config <=? Job.attempts job + 1) = false)
    by (apply Z.leb_gt; lia).
  unfold processJob_catch. rewrite Hlt. simpl.
  assert (Hget' : getJob (Job.id job)
            (updateJob (Job.id job)
               [set_status PENDING; set_error message; set_attempts (Job.attempts job + 1)]
               (database st))
          = Some (assign (assign (assign r (set_status PENDING)) (set_error message))
                         (set_attempts (Job.attempts job + 1))))
    by (by rewrite getJob_updateJob, Hget).
  split; [done|]. split; [by destruct r|]. split; [done|]. split; [done|].
  intros limit Hroom. apply getJob_Some in Hget' as [Hin _].
  apply getPendingJobs_room; [done|by destruct r|done].
Qed.

Lemma failed_dispatch_is_retried_at_once_witness :
  Job.status (foldl assign queued_job [set_status PENDING; set_error "boom"; set_attempts 2])
  = PENDING.
Proof.
  destruct (failed_dispatch_is_retried_at_once default_config 5000 0.5%float queued_job "boom"
              one_active queued_job) as (_ & Hst & _).
  - vm_compute. reflexivity.
  - reflexivity.
  - exact Hst.
Defined.

(** X13: when the attempts are used up in a millisecond for which a dead
    letter exists already, the INSERT fails on the primary key: the row is
    FAILED, but no dead letter is written and [job:failed] is not
    broadcast. *)
Theorem dead_letter_is_lost_on_id_collision config now rnd job message st :
  maxRetryAttempts config <= Job.attempts job + 1 ->
  "dlq_" +:+ pretty now ∈ map Dlq.id (dead_letter_queue (database st)) ->
  let st' := processJob_catch config now rnd job message st in
  dead_letter_queue (database st') = dead_letter_queue (database st)
  /\ sent st' = sent st
  /\ getJob (Job.id job) (database st')
     = (fun r => foldl assign r [set_status FAILED; set_error message;
                                 set_attempts (Job.attempts job + 1)])
       <$> getJob (Job.id job) (database st).
Proof.
  intros Hmax (d & Hid & Hd)%list_elem_of_fmap. simpl.
  unfold processJob_catch. apply Z.leb_le in Hmax. rewrite Hmax.
  unfold addToDeadLetter. simpl.
  assert (Hex : existsb (fun d => String.eqb (Dlq.id d) ("dlq_" +:+ pretty now))
                  (dead_letter_queue (database st)) = true).
  { apply existsb_exists. exists d. split; [by apply list_elem_of_In|].
    rewrite Hid. apply String.eqb_refl. }
  rewrite Hex. simpl. split; [done|]. split; [done|]. apply getJob_updateJob.
Qed.

Lemma dead_letter_is_lost_on_id_collision_witness :
  dead_letter_queue
    (database (processJob_catch retry_config 4005 0%float (assign queued_job (set_attempts 2))
                 "boom" (qm exhausted_state)))
  = dead_letter_queue (database (qm exhausted_state)).
Proof.
  destruct (dead_letter_is_lost_on_id_collision retry_config 4005 0%float
              (assign queued_job (set_attempts 2)) "boom" (qm exhausted_state))
    as [Hdlq _].
  - vm_compute. discriminate.
  - vm_compute. left.
  - exact Hdlq.
Defined.

(** ** Retries of dead letters *)

Lemma find_dead_letter_None dlqId db :
  find (fun j => String.eqb (Dlq.id j) dlqId) (getDeadLetterJobs db) = None
  <-> forall d, d ∈ dead_letter_queue db -> Dlq.id d <> dlqId.
Proof.
  split.
  - intros Hfind d Hd Hid.
    assert (Hin : In d (getDeadLetterJobs db)).
    { apply list_elem_of_In. unfold getDeadLetterJobs. by rewrite (order_by_perm dlq_desc). }
    pose proof (find_none _ _ Hfind d Hin) as Hno. simpl in Hno.
    apply String.eqb_neq in Hno. done.
  - intros Habsent. destruct (find _ _) as [d|] eqn:Hfind; [|done].
    apply find_some in Hfind as [Hin Hid]. apply String.eqb_eq in Hid.
    apply list_elem_of_In in Hin. unfold getDeadLetterJobs in Hin.
    rewrite (order_by_perm dlq_desc) in Hin. by apply Habsent in Hin.
Qed.

Lemma submitJob_error config uuid now endpointId input options st e :
  fst (submitJob config uuid now endpointId input options st) = inl e ->
  snd (submitJob config uuid now endpointId input options st) = st
  /\ e <> Error "Dead letter job not found".
Proof.
  unfold submitJob. destruct (hashInput input) as [e'|h] eqn:Hh.
  { unfold hashInput in Hh. destruct (Object_keys input); simplify_eq. by intros [= <-]. }
  destruct (if negb _ then _ else _); [by intros [=]|].
  destruct (_ <=? _); [intros [= <-]; split; [done|]; unfold budget_message; simpl; discriminate|].
  unfold createJob. simpl. destruct (existsb _ _); [by intros [= <-]|by intros [=]].
Qed.

(** X14: [retryDeadLetter] fails as not found exactly when no dead
    letter has the id; a call that fails leaves the state as it was; and
    no call, failed or not, removes or changes a dead letter. *)
Theorem retryDeadLetter_not_found_iff_absent config uuid now dlqId st :
  (fst (retryDeadLetter config uuid now dlqId st) = inl (Error "Dead letter job not found")
   <-> forall d, d ∈ dead_letter_queue (database st) -> Dlq.id d <> dlqId)
  /\ (forall e, fst (retryDeadLetter config uuid now dlqId st) = inl e ->
        snd (retryDeadLetter config uuid now dlqId st) = st)
  /\ dead_letter_queue (database (snd (retryDeadLetter config uuid now dlqId st)))
     = dead_letter_queue (database st).
Proof.
  split; [|split; [|apply retryDeadLetter_keeps_dead_letters]].
  - rewrite <- find_dead_letter_None. unfold retryDeadLetter.
    destruct (find _ _) as [d|]; [|done]. split; [|done].
    destruct (Dlq.job_data d); try done;
      destruct (get_prop "input" _); try done;
      intros He; by apply submitJob_error in He as [_ ?].
  - intros e. unfold retryDeadLetter.
    destruct (find _ _) as [d|]; [|done].
    destruct (Dlq.job_data d); try done;
      destruct (get_prop "input" _); try done;
      intros He; by apply submitJob_error in He as [? _].
Qed.

(** X15: a dead letter stays behind when it is retried, so it can be
    retried again: two retries that find fresh ids and a spend under the
    limit queue two PENDING jobs with the same input and the same hash. *)
Theorem retryDeadLetter_can_be_repeated config uuid1 now1 uuid2 now2 dlqId st st1 :
  retryDeadLetter config uuid1 now1 dlqId st = (inr (Queued uuid1 PENDING), st1) ->
  uuid2 ∉ map Job.id (jobs (database st1)) ->
  getTodaySpend now2 (database st1) < budgetLimitDaily config ->
  exists st2 r1 r2,
    retryDeadLetter config uuid2 now2 dlqId st1 = (inr (Queued uuid2 PENDING), st2)
    /\ jobs (database st2) = jobs (database st) ++ [r1; r2]
    /\ dead_letter_queue (database st2) = dead_letter_queue (database st)
    /\ Job.id r1 = uuid1 /\ Job.id r2 = uuid2
    /\ Job.input r1 = Job.input r2 /\ Job.input_hash r1 = Job.input_hash r2
    /\ Job.status r1 = PENDING /\ Job.status r2 = PENDING.
Proof.
  intros Hfirst Hnew Hspend.
  assert (Hcall : exists ep input,
    retryDeadLetter config uuid1 now1 dlqId st
    = submitJob config uuid1 now1 ep input {| skipDeduplication := Some true |} st
    /\ forall uuid now st',
         dead_letter_queue (database st') = dead_letter_queue (database st) ->
         retryDeadLetter config uuid now dlqId st'
         = submitJob config uuid now ep input {| skipDeduplication := Some true |} st').
  { unfold retryDeadLetter in *. unfold getDeadLetterJobs in *.
    destruct (find _ _) as [d|] eqn:Hfind; [|done].
    exists (get_prop "endpointId" (Dlq.job_data d)).
    destruct (Dlq.job_data d) eqn:Hdata; try done;
      (destruct (get_prop "input" _) as [input|] eqn:Hinput; [|done]);
      exists input; (split; [done|]); intros uuid now st' ->;
      by rewrite Hfind, Hdata, ?Hinput. }
  destruct Hcall as (ep & input & Hcall1 & Hcall2).
  rewrite Hcall1 in Hfirst.
  apply submitJob_Queued in Hfirst as (h & Hh & _ & _ & _ & Hdb & _).
  assert (Hdlq : dead_letter_queue (database st1) = dead_letter_queue (database st))
    by (by rewrite Hdb).
  rewrite (Hcall2 uuid2 now2 st1 Hdlq).
  rewrite (submitJob_accepts config uuid2 now2 ep input {| skipDeduplication := Some true |}
             st1 h Hh (or_introl eq_refl) Hspend Hnew).
  do 3 eexists. split; [done|]. simpl. rewrite Hdb. simpl. rewrite <- app_assoc. simpl.
  split; [done|]. by repeat split.
Qed.

Lemma retryDeadLetter_can_be_repeated_witness :
  exists st2 r1 r2,
    retryDeadLetter retry_config "job-3" 9500 "dlq_4005"
      (retryDeadLetter retry_config "job-2" 9000 "dlq_4005" (qm exhausted_state)).2
    = (inr (Queued "job-3" PENDING), st2)
    /\ jobs (database st2) = jobs (database (qm exhausted_state)) ++ [r1; r2].
Proof.
  destruct (retryDeadLetter_can_be_repeated retry_config "job-2" 9000 "job-3" 9500 "dlq_4005"
              (qm exhausted_state)
              (retryDeadLetter retry_config "job-2" 9000 "dlq_4005" (qm exhausted_state)).2)
    as (st2 & r1 & r2 & Hcall & Hjobs & _).
  - vm_compute. reflexivity.
  - apply (bool_decide_unpack _). vm_compute. exact I.
  - vm_compute. reflexivity.
  - exists st2, r1, r2. split; [exact Hcall|exact Hjobs].
Defined.

(** ** Listing and counting jobs *)

Lemma omap_id_Some {A B : Type} (f : A -> B) (l : list A) :
  omap (fun v => v) (map (fun x => Some (f x)) l) = map f l.
Proof. induction l as [|x l IH]; csimpl; [done|]. by rewrite IH. Qed.

Lemma sum_case_count s rows :
  rows <> [] -> sum_case s rows = Some (count_status s rows).
Proof.
  intros Hne. unfold sum_case, sql_sum. rewrite omap_id_Some.
  destruct rows as [|r rows]; [done|]. clear Hne.
  remember (r :: rows) as l eqn:Hl.
  assert (Hsum : foldr Z.add 0 (map (fun r => if bool_decide (Job.status r = s) then 1 else 0) l)
                 = count_status s l).
  { clear Hl. unfold count_status. induction l as [|x l IH]; simpl; [done|].
    rewrite IH, filter_cons. case_bool_decide.
    - rewrite decide_True by done. simpl. lia.
    - rewrite decide_False by done. lia. }
  rewrite <- Hsum. subst l. done.
Qed.

Lemma count_status_partition rows :
  count_status PENDING rows + count_status RUNNING rows + count_status IN_QUEUE rows
  + count_status COMPLETED rows + count_status FAILED rows + count_status CANCELLED rows
  = Z.of_nat (length rows).
Proof.
  unfold count_status. induction rows as [|r rows IH]; simpl; [done|].
  rewrite !filter_cons. destruct (Job.status r) eqn:E;
    repeat (first [rewrite decide_True by done | rewrite decide_False by done]);
    simpl length; lia.
Qed.

(** X16: on an empty table [getJobStats] reports 0 jobs and NULL, not 0,
    for every other figure; on a table with rows the four counts are the
    numbers of COMPLETED, FAILED, PENDING and RUNNING rows, and they add
    up to the total less the rows that are IN_QUEUE or CANCELLED, which
    no figure reports. *)
Theorem getJobStats_counts db :
  (jobs db = [] ->
   getJobStats db = Stats.Row 0 None None None None None None)
  /\ (jobs db <> [] ->
      Stats.completed (getJobStats db) = Some (count_status COMPLETED (jobs db))
      /\ Stats.failed (getJobStats db) = Some (count_status FAILED (jobs db))
      /\ Stats.pending (getJobStats db) = Some (count_status PENDING (jobs db))
      /\ Stats.running (getJobStats db) = Some (count_status RUNNING (jobs db))
      /\ count_status COMPLETED (jobs db) + count_status FAILED (jobs db)
         + count_status PENDING (jobs db) + count_status RUNNING (jobs db)
         = Stats.total (getJobStats db)
           - count_status IN_QUEUE (jobs db) - count_status CANCELLED (jobs db)).
Proof.
  split.
  - intros Hnil. unfold getJobStats. by rewrite Hnil.
  - intros Hne. unfold getJobStats. simpl. rewrite !sum_case_count by done.
    repeat split; try done. pose proof (count_status_partition (jobs db)). lia.
Qed.



(** ** The tracked pods *)

Lemma has_pod_id_true i p : has_pod_id i p = true <-> Pod.id p = i.
Proof. unfold has_pod_id. apply String.eqb_eq. Qed.

Lemma has_pod_id_false i p : has_pod_id i p = false <-> Pod.id p <> i.
Proof. unfold has_pod_id. apply String.eqb_neq. Qed.

Lemma elem_of_removePod i pods p :
  p ∈ removePod i pods <-> p ∈ pods /\ Pod.id p <> i.
Proof.
  unfold removePod. rewrite list_elem_of_filter, <- has_pod_id_false.
  destruct (has_pod_id i p); simpl; split; try done; by intros [? ?].
Qed.

Lemma find_removePod i pods : List.find (has_pod_id i) (removePod i pods) = None.
Proof.
  destruct (find _ _) as [p|] eqn:Hfind; [|done].
  apply find_some in Hfind as [Hin Hid]. apply list_elem_of_In, elem_of_removePod in Hin.
  apply has_pod_id_true in Hid. by destruct Hin.
Qed.

Lemma find_app_new i (pods : list Pod.row) p :
  List.find (has_pod_id i) pods = None -> Pod.id p = i ->
  List.find (has_pod_id i) (pods ++ [p]) = Some p.
Proof.
  intros Hnone Hid. induction pods as [|x pods IH]; simpl in *.
  - apply has_pod_id_true in Hid. by rewrite Hid.
  - destruct (has_pod_id i x); [done|auto].
Qed.

Lemma pod_ids_removePod i pods :
  NoDup (map Pod.id pods) -> NoDup (map Pod.id (removePod i pods))
  /\ (i ∉ map Pod.id (removePod i pods)).
Proof.
  intros Hnd. split.
  - eapply sublist_NoDup; [exact Hnd|]. apply fmap_sublist, sublist_filter.
  - intros (p & -> & Hp)%list_elem_of_fmap. apply elem_of_removePod in Hp. by destruct Hp.
Qed.

Lemma removePod_absent i pods :
  List.find (has_pod_id i) pods = None -> removePod i pods = pods.
Proof.
  intros Hnone. unfold removePod. apply filter_all. apply Forall_forall. intros p Hp.
  apply list_elem_of_In in Hp. pose proof (find_none _ _ Hnone p Hp) as Hno.
  simpl in Hno. by rewrite Hno.
Qed.

Lemma find_absent i (pods : list Pod.row) :
  i ∉ map Pod.id pods -> List.find (has_pod_id i) pods = None.
Proof.
  intros Hnot. destruct (find _ _) as [p|] eqn:Hfind; [|done].
  apply find_some in Hfind as [Hin Hid]. apply has_pod_id_true in Hid.
  exfalso. apply Hnot. rewrite <- Hid. apply list_elem_of_fmap_2. by apply list_elem_of_In.
Qed.

Lemma length_removePod_found i pods old :
  NoDup (map Pod.id pods) -> List.find (has_pod_id i) pods = Some old ->
  length pods = S (length (removePod i pods)).
Proof.
  induction pods as [|x pods IH]; simpl; [done|].
  intros [Hx Hnd]%NoDup_cons Hfind. unfold removePod. rewrite filter_cons.
  destruct (has_pod_id i x) eqn:E; simpl.
  - f_equal. apply has_pod_id_true in E. subst i.
    change (filter _ pods) with (removePod (Pod.id x) pods).
    rewrite removePod_absent; [done|]. by apply find_absent.
  - f_equal. by apply IH.
Qed.

(** X19: [trackPod] on a table with distinct ids leaves one row with
    the id of the pod and the other rows as they were; the row keeps the
    creation time and the amount spent of the row it replaces (0 where
    that was NULL), or starts at the current time and 0, and its last
    activity is now. *)
Theorem trackPod_replaces_the_row now pod pods :
  NoDup (map Pod.id pods) ->
  let pods' := trackPod now pod pods in
  NoDup (map Pod.id pods')
  /\ (forall p, Pod.id p <> pod_id pod -> p ∈ pods' <-> p ∈ pods)
  /\ exists p',
       List.find (has_pod_id (pod_id pod)) pods' = Some p'
       /\ Pod.last_activity p' = seconds now
       /\ match List.find (has_pod_id (pod_id pod)) pods with
          | Some old =>
              Pod.created_at p' = Pod.created_at old
              /\ Pod.total_spent p' = Some (default 0 (Pod.total_spent old))
              /\ length pods' = length pods
          | None =>
              Pod.created_at p' = seconds now
              /\ Pod.total_spent p' = Some 0
              /\ length pods' = S (length pods)
          end.
Proof.
  intros Hnd. simpl. unfold trackPod.
  change (filter (fun p => negb (has_pod_id (pod_id pod) p)) pods)
    with (removePod (pod_id pod) pods).
  destruct (pod_ids_removePod (pod_id pod) pods Hnd) as [Hnd' Hnew].
  split; [|split].
  - rewrite map_app. simpl. apply NoDup_app. split; [done|]. split; [|apply NoDup_singleton].
    by intros i Hi ->%list_elem_of_singleton.
  - intros p Hid. rewrite elem_of_app, elem_of_removePod, list_elem_of_singleton.
    split; [intros [[? _]| ->]; [done|by simpl in Hid]|intros ?; left; by split].
  - eexists. split; [apply find_app_new; [apply find_removePod|done]|]. simpl.
    split; [done|]. rewrite length_app. simpl.
    destruct (find _ pods) as [old|] eqn:Hold; simpl.
    + split; [done|]. split; [done|].
      rewrite (length_removePod_found _ _ _ Hnd Hold). lia.
    + split; [done|]. split; [done|]. rewrite removePod_absent by done. lia.
Qed.

Lemma trackPod_replaces_the_row_witness :
  NoDup (map Pod.id one_pod)
  /\ NoDup (map Pod.id (trackPod 2000000 music_pod one_pod))
  /\ exists p', List.find (has_pod_id "pod-1") (trackPod 2000000 music_pod one_pod) = Some p'
                /\ Pod.last_activity p' = 2000.
Proof.
  assert (Hnd : NoDup (map Pod.id one_pod)) by (vm_compute; apply NoDup_singleton).
  split; [exact Hnd|].
  destruct (trackPod_replaces_the_row 2000000 music_pod one_pod Hnd)
    as (Hnd' & _ & p' & Hfind & Hlast & _).
  split; [exact Hnd'|]. exists p'. split; [exact Hfind|exact Hlast].
Defined.

Lemma elem_of_trackPod now pod pods q :
  q ∈ trackPod now pod pods -> Pod.id q = pod_id pod ->
  q = Pod.Row (pod_id pod) (pod_name pod) (pod_gpuType pod) (pod_costPerHour pod)
        (pod_status pod) (text_or_null (pod_taskType pod))
        (number_or_null (pod_port pod)) (number_or_null (pod_spendingLimit pod))
        (Some (default 0 (List.find (has_pod_id (pod_id pod)) pods ≫= Pod.total_spent)))
        (seconds now)
        (default (seconds now) (Pod.created_at <$> List.find (has_pod_id (pod_id pod)) pods)).
Proof.
  unfold trackPod. intros [Hq|Hq]%elem_of_app Hid.
  - apply (elem_of_removePod (pod_id pod)) in Hq. by destruct Hq.
  - by apply list_elem_of_singleton in Hq.
Qed.

(** X20: the handler of POST /api/pods/:id/stop tracks the pod with its
    id and status alone, which erases its name, GPU, price, task type,
    port and spending limit; the handler of .../start only touches the
    last activity.  So a pod that was stopped, started again any number
    of times or not, is STOPPED in the table: [getInactivePods] never
    returns it and [checkSpendingLimits] skips it. *)
Theorem stopped_pod_escapes_the_checks now podId pods starts :
  let pods' := foldr (fun t => api_pod_start t podId) (api_pod_stop now podId pods) starts in
  (exists q, q ∈ pods' /\ Pod.id q = podId)
  /\ (forall q, q ∈ pods' -> Pod.id q = podId ->
        stopped_columns q /\ spending_checked q = false)
  /\ (forall minutes t q, q ∈ getInactivePods minutes t pods' -> Pod.id q <> podId).
Proof.
  simpl.
  assert (Hrows :
    (exists q, q ∈ foldr (fun t => api_pod_start t podId) (api_pod_stop now podId pods) starts
               /\ Pod.id q = podId)
    /\ forall q,
         q ∈ foldr (fun t => api_pod_start t podId) (api_pod_stop now podId pods) starts ->
         Pod.id q = podId -> stopped_columns q).
  { induction starts as [|t starts [IHex IH]]; simpl.
    - split.
      + eexists. split; [unfold api_pod_stop, trackPod; apply elem_of_app; right; left|done].
      + intros q Hq Hid. apply elem_of_trackPod in Hq; [|done]. subst q.
        by repeat split.
    - split.
      + destruct IHex as (q & Hq & Hid).
        exists (if has_pod_id podId q then set_last_activity (seconds t) q else q).
        split; [unfold api_pod_start, updatePodActivity; apply list_elem_of_fmap; by exists q|].
        by destruct (has_pod_id podId q).
      + intros q' (q & -> & Hq)%list_elem_of_fmap Hid.
        destruct (has_pod_id podId q) eqn:E; [|by apply IH].
        apply has_pod_id_true in E. by apply IH in Hq. }
  destruct Hrows as [Hex Hrows]. split; [done|]. split.
  - intros q Hq Hid. destruct (Hrows q Hq Hid) as (Hn & Hg & Hc & Ht & Hp & Hl & Hs).
    split; [by repeat split|]. unfold spending_checked. by rewrite Hl.
  - intros minutes t q [Hq Hin]%list_elem_of_filter Hid.
    destruct (Hrows q Hin Hid) as (_ & _ & _ & _ & _ & _ & Hs).
    unfold is_running in Hq. rewrite Hs in Hq. simpl in Hq. by rewrite andb_false_r in Hq.
Qed.

(** X21: a spending limit of 0 is stored as NULL, as if none had been
    given, and [checkSpendingLimits] skips the pod. *)
Theorem zero_spending_limit_is_no_limit now pod pods :
  pod_spendingLimit pod = Some 0 ->
  trackPod now pod pods = trackPod now (without_limit pod) pods
  /\ forall q, q ∈ trackPod now pod pods -> Pod.id q = pod_id pod ->
       Pod.spending_limit q = None /\ spending_checked q = false.
Proof.
  intros Hzero. split; [unfold trackPod; simpl; by rewrite Hzero|].
  intros q Hq Hid. apply elem_of_trackPod in Hq; [|done]. subst q.
  unfold spending_checked. simpl. by rewrite Hzero.
Qed.

Lemma zero_spending_limit_is_no_limit_witness :
  trackPod 1000000 music_pod [] = trackPod 1000000 (without_limit music_pod) [].
Proof.
  destruct (zero_spending_limit_is_no_limit 1000000 music_pod []) as [Hsame _].
  - reflexivity.
  - exact Hsame.
Defined.


(** X23: [getPodEngine] reads [taskType] where the rows have
    [task_type], and answers comfyui for every pod, also one that was
    just tracked with another task type. *)
Theorem getPodEngine_is_always_comfyui podId pods :
  getPodEngine podId pods = "comfyui"
  /\ forall now pod, getPodEngine (pod_id pod) (trackPod now pod pods) = "comfyui".
Proof.
  assert (Hall : forall i l, getPodEngine i l = "comfyui").
  { intros i l. unfold getPodEngine. by destruct (find _ _). }
  split; [apply Hall|]. intros now pod. apply Hall.
Qed.

Lemma removePod_app_same i pods p :
  Pod.id p = i -> removePod i (pods ++ [p]) = removePod i pods.
Proof.
  intros Hid. unfold removePod. rewrite filter_app, filter_cons, filter_nil.
  apply has_pod_id_true in Hid. rewrite decide_False; [apply app_nil_r|].
  intros Hnot. by rewrite Hid in Hnot.
Qed.

Lemma removePod_twice i pods : removePod i (removePod i pods) = removePod i pods.
Proof. apply removePod_absent, find_removePod. Qed.

(** X24: [removePod] leaves no row with the id, undoes a [trackPod] of
    a pod that was not in the table, and loses what [trackPod] would
    have kept: a pod tracked again after its removal starts at 0 spent
    and at the current time. *)
Theorem removePod_forgets_the_pod now pod pods :
  List.find (has_pod_id (pod_id pod)) (api_pod_delete (pod_id pod) pods) = None
  /\ api_pod_delete (pod_id pod) (trackPod now pod pods) = api_pod_delete (pod_id pod) pods
  /\ (pod_id pod ∉ map Pod.id pods ->
      api_pod_delete (pod_id pod) (trackPod now pod pods) = pods)
  /\ exists p,
       List.find (has_pod_id (pod_id pod))
         (trackPod now pod (api_pod_delete (pod_id pod) pods)) = Some p
       /\ Pod.total_spent p = Some 0 /\ Pod.created_at p = seconds now.
Proof.
  unfold api_pod_delete.
  assert (Hdel : removePod (pod_id pod) (trackPod now pod pods) = removePod (pod_id pod) pods).
  { unfold trackPod.
    change (filter (fun p => negb (has_pod_id (pod_id pod) p)) pods)
      with (removePod (pod_id pod) pods).
    rewrite removePod_app_same by done. apply removePod_twice. }
  split; [apply find_removePod|]. split; [done|]. split.
  - intros Hnew. rewrite Hdel. by apply removePod_absent, find_absent.
  - eexists. split.
    + unfold trackPod. apply find_app_new; [|done].
      change (filter _ (removePod _ pods))
        with (removePod (pod_id pod) (removePod (pod_id pod) pods)).
      apply find_removePod.
    + by rewrite find_removePod.
Qed.
